(** * The WebSocket connection and subscription manager of FinanceGPT

    A shallow embedding of [backend/api/websocket.py]: the class
    [ConnectionManager] (one client's channel) and the class
    [WebSocketManager] (connections, topic index, offline queue, counters),
    followed by the properties of the connection manager's specification.

    Every coroutine of the source is embedded as one atomic transition:
    what it does between two of its own suspension points is what the
    source does, and no other coroutine is interleaved at its [await]s. *)

From stdpp Require Import gmap strings list fin_maps pretty.

Set Warnings "-clear-no-such-hyp".

(** ** Messages, events and the environment *)

(** A message is a Python [dict] that is serialised to a JSON object; the
    manager only reads and writes top-level string fields. *)
Abbreviation message := (gmap string string).

(** [fastapi.websockets.WebSocketState]. *)
Inductive WebSocketState := CONNECTING | CONNECTED | DISCONNECTED.

Global Instance WebSocketState_eq_dec : EqDecision WebSocketState.
Proof. solve_decision. Defined.

(** The [logger.info] lines of the manager. *)
Inductive Info :=
  | Connected (client_id : string)
  | Disconnected (client_id : string)
  | Subscribed (client_id topic : string)
  | Unsubscribed (client_id topic : string).

(** What the manager has done to the outside world so far. [EvSend l m a b]:
    [send_personal_message(m)] was called on the Connection object at
    address [l]; [a] is that object's [is_active] flag at the call (the
    channel is touched only when it is true) and [b] the value returned. *)
Inductive Event :=
  | EvAccept (websocket : nat) (ok : bool)
  | EvSend (l : nat) (m : message) (active : bool) (ok : bool)
  | EvPing (l : nat) (ok : bool)
  | EvInfo (i : Info).

(** The collaborators the manager does not own: the channels, the clock, the
    random identifiers and the iteration order of Python's sets and dicts.
    Each answer may depend on everything that has happened so far. A [bool]
    answer [false] of [accept] and [send_text] stands for an exception
    raised by the transport. *)
Record Env := {
  accept : list Event → nat → bool;
  client_state : list Event → nat → WebSocketState;
  send_text : list Event → nat → message → bool;
  utcnow : list Event → string;
  uuid4 : list Event → string;
  iter_order : list Event → gset string → list string;
  iter_order_perm : ∀ tr (X : gset string), iter_order tr X ≡ₚ elements X
}.

(** The outcome of a call: a returned value, or an exception that leaves
    the callee. *)
Inductive result (A : Type) :=
  | Return (a : A)
  | Raise.
Arguments Return {A} a.
Arguments Raise {A}.

(** ** class ConnectionManager *)

Module ConnectionManager.

Record t := mk {
  websocket : nat;
  client_id : string;
  subscriptions : gset string;
  last_ping : string;
  is_active : bool
}.

(** [__init__] *)
Definition init (ws : nat) (cid : string) (now : string) : t :=
  {| websocket := ws; client_id := cid; subscriptions := ∅;
     last_ping := now; is_active := true |}.

(** [self.is_active = False] *)
Definition set_inactive (self : t) : t :=
  {| websocket := websocket self; client_id := client_id self;
     subscriptions := subscriptions self; last_ping := last_ping self;
     is_active := false |}.

(** [self.last_ping = now] *)
Definition set_last_ping (now : string) (self : t) : t :=
  {| websocket := websocket self; client_id := client_id self;
     subscriptions := subscriptions self; last_ping := now;
     is_active := is_active self |}.

(** The [try] block of [send_personal_message]. *)
Definition send_try (E : Env) (tr : list Event) (self : t) (m : message)
  : result (bool * t) :=
  if decide (client_state E tr (websocket self) ≠ CONNECTED)
  then Return (false, set_inactive self)
  else if send_text E tr (websocket self) m
       then Return (true, self)
       else Raise.

(** [send_personal_message]: the guard, the [try] block and its
    [except Exception] handler. *)
Definition send_personal_message (E : Env) (tr : list Event) (self : t)
    (m : message) : result (bool * t) :=
  if negb (is_active self) then Return (false, self)
  else match send_try E tr self m with
       | Return r => Return r
       | Raise => Return (false, set_inactive self)
       end.

Definition ping_message (now : string) : message :=
  {[ "type" := "ping"; "timestamp" := now ]}.

(** The [try] block of [ping]. *)
Definition ping_try (E : Env) (tr : list Event) (self : t)
  : result (bool * t) :=
  if send_text E tr (websocket self) (ping_message (utcnow E tr))
  then Return (true, set_last_ping (utcnow E tr) self)
  else Raise.

(** [ping]: the [try] block and its bare [except] handler. *)
Definition ping (E : Env) (tr : list Event) (self : t)
  : result (bool * t) :=
  match ping_try E tr self with
  | Return r => Return r
  | Raise => Return (false, set_inactive self)
  end.

Global Instance inhabited : Inhabited t := populate (init 0 "" "").

End ConnectionManager.

(** A finished call as the caller sees it: the returned value, or the
    fallback [d] had the call raised. *)
Definition returned {A} (d : A) (r : result A) : A :=
  match r with
  | Return a => a
  | Raise => d
  end.

(** ** class WebSocketManager *)

Module WebSocketManager.

(** The [stats] dict; its four keys are fixed at construction. *)
Module Stats.
Record t := mk {
  total_connections : nat;
  active_connections : nat;
  messages_sent : nat;
  failed_sends : nat
}.
End Stats.

(** The manager together with the Connection objects it has created.
    [objs] is the store of those objects, an object's address is its
    position, and [active_connections] maps a client id to the address of
    its Connection, so that two references to one object are one address.
    [trace] is the history of calls made on the environment. *)
Record t := mk {
  objs : list ConnectionManager.t;
  active_connections : gmap string nat;
  subscriptions : gmap string (gset string);
  message_queue : gmap string (list message);
  stats : Stats.t;
  trace : list Event
}.

(** [__init__] *)
Definition init : t :=
  {| objs := []; active_connections := ∅; subscriptions := ∅;
     message_queue := ∅; stats := Stats.mk 0 0 0 0; trace := [] |}.

Definition set_objs (o : list ConnectionManager.t) (s : t) : t :=
  mk o (active_connections s) (subscriptions s) (message_queue s)
     (stats s) (trace s).
Definition set_active_connections (c : gmap string nat) (s : t) : t :=
  mk (objs s) c (subscriptions s) (message_queue s) (stats s) (trace s).
Definition set_subscriptions (u : gmap string (gset string)) (s : t) : t :=
  mk (objs s) (active_connections s) u (message_queue s) (stats s)
     (trace s).
Definition set_message_queue (q : gmap string (list message)) (s : t) : t :=
  mk (objs s) (active_connections s) (subscriptions s) q (stats s)
     (trace s).
Definition set_stats (st : Stats.t) (s : t) : t :=
  mk (objs s) (active_connections s) (subscriptions s) (message_queue s)
     st (trace s).
Definition emit (e : Event) (s : t) : t :=
  mk (objs s) (active_connections s) (subscriptions s) (message_queue s)
     (stats s) (trace s ++ [e]).

(** [self.stats["total_connections"] += 1] *)
Definition incr_total_connections (s : t) : t :=
  set_stats (Stats.mk (S (Stats.total_connections (stats s)))
                     (Stats.active_connections (stats s))
                     (Stats.messages_sent (stats s))
                     (Stats.failed_sends (stats s))) s.

(** [self.stats["active_connections"] = len(self.active_connections)] *)
Definition recount_active_connections (s : t) : t :=
  set_stats (Stats.mk (Stats.total_connections (stats s))
                     (size (active_connections s))
                     (Stats.messages_sent (stats s))
                     (Stats.failed_sends (stats s))) s.

(** [self.stats["messages_sent"] += 1] *)
Definition incr_messages_sent (s : t) : t :=
  set_stats (Stats.mk (Stats.total_connections (stats s))
                     (Stats.active_connections (stats s))
                     (S (Stats.messages_sent (stats s)))
                     (Stats.failed_sends (stats s))) s.

(** [self.stats["failed_sends"] += 1] *)
Definition incr_failed_sends (s : t) : t :=
  set_stats (Stats.mk (Stats.total_connections (stats s))
                     (Stats.active_connections (stats s))
                     (Stats.messages_sent (stats s))
                     (S (Stats.failed_sends (stats s)))) s.

(** [await connection.send_personal_message(m)] for the Connection
    object at address [l]: the object is updated in place. The call always
    returns ([send_personal_message_returns] below), so the fallback is
    never taken. *)
Definition conn_send (E : Env) (l : nat) (m : message) (s : t) : bool * t :=
  let c := objs s !!! l in
  let '(ok, c') :=
    returned (false, c)
             (ConnectionManager.send_personal_message E (trace s) c m) in
  (ok, emit (EvSend l m (ConnectionManager.is_active c) ok)
            (set_objs (<[l := c']> (objs s)) s)).

(** [await connection.ping()] for the Connection object at address [l]. *)
Definition conn_ping (E : Env) (l : nat) (s : t) : bool * t :=
  let c := objs s !!! l in
  let '(ok, c') := returned (false, c) (ConnectionManager.ping E (trace s) c) in
  (ok, emit (EvPing l ok) (set_objs (<[l := c']> (objs s)) s)).

(** The body of the loop of [disconnect] over the topics. *)
Definition discard_subscriber (client_id : string)
    (subs : gmap string (gset string)) (topic : string)
  : gmap string (gset string) :=
  match subs !! topic with
  | Some X =>
      if decide (client_id ∈ X) then
        let X' := X ∖ {[client_id]} in
        if decide (X' = ∅) then delete topic subs
        else <[topic := X']> subs
      else subs
  | None => subs
  end.

(** [disconnect]. The loop visits every key of [subscriptions] once; what
    it leaves does not depend on the order of the visit
    ([discard_all_lookup] below). *)
Definition disconnect (client_id : string) (s : t) : t :=
  match active_connections s !! client_id with
  | Some _ =>
      let subs := foldl (discard_subscriber client_id) (subscriptions s)
                        (elements (dom (subscriptions s))) in
      let s1 := set_subscriptions subs s in
      let s2 := set_active_connections
                  (delete client_id (active_connections s1)) s1 in
      emit (EvInfo (Disconnected client_id)) (recount_active_connections s2)
  | None => s
  end.

Definition welcome_message (client_id now : string) : message :=
  {[ "type" := "connection_established"; "client_id" := client_id;
     "timestamp" := now;
     "message" := "🚀 Connected to FinanceGPT Live!" ]}.

(** [if not client_id: client_id = str(uuid.uuid4())] *)
Definition assigned_id (E : Env) (tr : list Event)
    (client_id : option string) : string :=
  match client_id with
  | None => uuid4 E tr
  | Some c => if decide (c = "") then uuid4 E tr else c
  end.

(** The flush loop of [connect]. *)
Definition flush (E : Env) (l : nat) (ms : list message) (s : t) : t :=
  foldl (λ s m, (conn_send E l m s).2) s ms.

(** The part of [connect] that creates the Connection object, stores it
    under the client id and updates the two counters. *)
Definition register (ws : nat) (cid now : string) (s : t) : t :=
  let connection := ConnectionManager.init ws cid now in
  let s1 := set_active_connections
              (<[cid := length (objs s)]> (active_connections s))
              (set_objs (objs s ++ [connection]) s) in
  recount_active_connections (incr_total_connections s1).

(** [connect]. When [websocket.accept()] raises, the exception leaves
    [connect] before the manager is touched. *)
Definition connect (E : Env) (ws : nat) (client_id : option string) (s : t)
  : result string * t :=
  if negb (accept E (trace s) ws) then (Raise, emit (EvAccept ws false) s)
  else
    let s0 := emit (EvAccept ws true) s in
    let cid := assigned_id E (trace s0) client_id in
    let l := length (objs s0) in
    let s2 := register ws cid (utcnow E (trace s0)) s0 in
    let s3 := (conn_send E l (welcome_message cid (utcnow E (trace s2))) s2).2 in
    let s4 :=
      match message_queue s3 !! cid with
      | Some ms =>
          set_message_queue (delete cid (message_queue s3)) (flush E l ms s3)
      | None => s3
      end in
    (Return cid, emit (EvInfo (Connected cid)) s4).

Definition confirmation_message (topic now : string) : message :=
  {[ "type" := "subscription_confirmed"; "topic" := topic;
     "timestamp" := now ]}.

(** The part of [subscribe] that updates the topic index. *)
Definition add_subscriber (client_id topic : string)
    (subs : gmap string (gset string)) : gmap string (gset string) :=
  let subs1 :=
    match subs !! topic with
    | None => <[topic := ∅]> subs
    | Some _ => subs
    end in
  <[topic := (subs1 !!! topic) ∪ {[client_id]}]> subs1.

(** [subscribe] *)
Definition subscribe (E : Env) (client_id topic : string) (s : t) : t :=
  let s1 := set_subscriptions
              (add_subscriber client_id topic (subscriptions s)) s in
  let s2 :=
    match active_connections s1 !! client_id with
    | Some l =>
        (conn_send E l (confirmation_message topic (utcnow E (trace s1))) s1).2
    | None => s1
    end in
  emit (EvInfo (Subscribed client_id topic)) s2.

(** The part of [unsubscribe] that updates the topic index. *)
Definition remove_subscriber (client_id topic : string)
    (subs : gmap string (gset string)) : gmap string (gset string) :=
  match subs !! topic with
  | Some X =>
      let X' := X ∖ {[client_id]} in
      if decide (X' = ∅) then delete topic subs else <[topic := X']> subs
  | None => subs
  end.

(** [unsubscribe] *)
Definition unsubscribe (client_id topic : string) (s : t) : t :=
  emit (EvInfo (Unsubscribed client_id topic))
       (set_subscriptions
          (remove_subscriber client_id topic (subscriptions s)) s).

(** The part of [send_personal_message] that queues a message for a client
    id without a Connection. *)
Definition enqueue (client_id : string) (m : message)
    (q : gmap string (list message)) : gmap string (list message) :=
  let q1 :=
    match q !! client_id with
    | None => <[client_id := []]> q
    | Some _ => q
    end in
  <[client_id := (q1 !!! client_id) ++ [m]]> q1.

(** [send_personal_message] *)
Definition send_personal_message (E : Env) (client_id : string)
    (m : message) (s : t) : t :=
  match active_connections s !! client_id with
  | Some l =>
      if ConnectionManager.is_active (objs s !!! l) then
        let '(success, s1) := conn_send E l m s in
        if success then incr_messages_sent s1
        else incr_failed_sends (disconnect client_id s1)
      else disconnect client_id s
  | None => set_message_queue (enqueue client_id m (message_queue s)) s
  end.

(** One iteration of the fan-out loop shared by the two broadcasts, for
    the Connection at address [l]; [dc] is [disconnected_clients]. *)
Definition fanout_one (E : Env) (m : message) (client_id : string) (l : nat)
    (acc : t * list string) : t * list string :=
  let '(s, dc) := acc in
  if ConnectionManager.is_active (objs s !!! l) then
    let '(success, s1) := conn_send E l m s in
    if success then (incr_messages_sent s1, dc)
    else (incr_failed_sends s1, dc ++ [client_id])
  else (s, dc ++ [client_id]).

(** The body of the fan-out loop of [broadcast_to_topic]. *)
Definition topic_step (E : Env) (m : message) (acc : t * list string)
    (client_id : string) : t * list string :=
  match active_connections acc.1 !! client_id with
  | Some l => fanout_one E m client_id l acc
  | None => acc
  end.

(** [for client_id in disconnected_clients: await self.disconnect(client_id)] *)
Definition disconnect_all (dc : list string) (s : t) : t :=
  foldl (λ s c, disconnect c s) s dc.

(** [broadcast_to_topic] *)
Definition broadcast_to_topic (E : Env) (topic : string) (m : message)
    (s : t) : t :=
  match subscriptions s !! topic with
  | None => s
  | Some X =>
      let m' := <["timestamp" := utcnow E (trace s)]> m in
      let snapshot := iter_order E (trace s) X in
      let '(s1, dc) := foldl (topic_step E m') (s, []) snapshot in
      disconnect_all dc s1
  end.

(** [list(self.active_connections.items())] *)
Definition items (E : Env) (s : t) : list (string * nat) :=
  omap (λ c, pair c <$> active_connections s !! c)
       (iter_order E (trace s) (dom (active_connections s))).

(** [broadcast_to_all] *)
Definition broadcast_to_all (E : Env) (m : message) (s : t) : t :=
  let m' := <["timestamp" := utcnow E (trace s)]> m in
  let '(s1, dc) :=
    foldl (λ acc cl, fanout_one E m' cl.1 cl.2 acc) (s, []) (items E s) in
  disconnect_all dc s1.

(** One iteration of [_health_check_loop], up to its [sleep]. *)
Definition health_check_pass (E : Env) (s : t) : t :=
  let '(s1, dc) :=
    foldl (λ (acc : t * list string) (cl : string * nat),
             let '(ok, s1) := conn_ping E cl.2 acc.1 in
             if ok then (s1, acc.2) else (s1, acc.2 ++ [cl.1]))
          (s, []) (items E s) in
  disconnect_all dc s1.

(** [messages[-100:]] *)
Definition latest (n : nat) (messages : list message) : list message :=
  drop (length messages - n) messages.

(** The body of the loop of [_cleanup_loop] over the queued client ids. *)
Definition cleanup_one (q : gmap string (list message)) (client_id : string)
  : gmap string (list message) :=
  match q !! client_id with
  | Some messages =>
      if decide (100 < length messages)
      then <[client_id := latest 100 messages]> q
      else q
  | None => q
  end.

(** One iteration of [_cleanup_loop], up to its [sleep]. As in
    [disconnect], the order in which the keys are visited does not
    matter ([cleanup_pass_lookup] below). *)
Definition cleanup_pass (s : t) : t :=
  set_message_queue
    (foldl cleanup_one (message_queue s) (elements (dom (message_queue s))))
    s.

(** The message built by [broadcast_market_update]; [data] is the payload
    in serialised form. *)
Definition market_message (data : string) : message :=
  {[ "type" := "market_update"; "data" := data;
     "source" := "real_time_feed" ]}.

(** [broadcast_market_update] *)
Definition broadcast_market_update (E : Env) (data : string) (s : t) : t :=
  broadcast_to_topic E "market_data" (market_message data) s.

Definition news_message (data : string) : message :=
  {[ "type" := "news_update"; "data" := data; "source" := "news_feed" ]}.

(** [broadcast_news_update] *)
Definition broadcast_news_update (E : Env) (data : string) (s : t) : t :=
  broadcast_to_topic E "news" (news_message data) s.

Definition signal_message (data : string) : message :=
  {[ "type" := "ai_signal"; "data" := data; "source" := "ai_agents" ]}.

(** [broadcast_ai_signal] *)
Definition broadcast_ai_signal (E : Env) (data : string) (s : t) : t :=
  broadcast_to_topic E "signals" (signal_message data) s.

(** The dict returned by [get_stats]: the four counters, the topics and the
    number of subscribers of each topic. *)
Record Report := mkReport {
  counters : Stats.t;
  topics : list string;
  topic_subscribers : gmap string nat
}.

(** [get_stats] *)
Definition get_stats (E : Env) (s : t) : Report :=
  {| counters := stats s;
     topics := iter_order E (trace s) (dom (subscriptions s));
     topic_subscribers := size <$> subscriptions s |}.

(** The coroutines of the two background loops. *)
Inductive Loop := HealthCheckLoop | CleanupLoop.

(** [_health_check_task] and [_cleanup_task], with the tasks that
    [asyncio.create_task] has created so far; a task is referred to by its
    position among them. *)
Record Tasks := mkTasks {
  health_check_task : option nat;
  cleanup_task : option nat;
  created : list Loop
}.

(** The two references as [__init__] leaves them. *)
Definition no_tasks : Tasks := mkTasks None None [].

(** [start_background_tasks] *)
Definition start_background_tasks (b : Tasks) : Tasks :=
  let b1 :=
    match health_check_task b with
    | None => mkTasks (Some (length (created b))) (cleanup_task b)
                      (created b ++ [HealthCheckLoop])
    | Some _ => b
    end in
  match cleanup_task b1 with
  | None => mkTasks (health_check_task b1) (Some (length (created b1)))
                    (created b1 ++ [CleanupLoop])
  | Some _ => b1
  end.

End WebSocketManager.

(** ** Runs of the manager *)

(** The public operations and the two background passes. *)
Inductive Call :=
  | Connect (websocket : nat) (client_id : option string)
  | Disconnect (client_id : string)
  | Subscribe (client_id topic : string)
  | Unsubscribe (client_id topic : string)
  | SendPersonalMessage (client_id : string) (m : message)
  | BroadcastToTopic (topic : string) (m : message)
  | BroadcastToAll (m : message)
  | HealthCheck
  | Cleanup.

Definition step (E : Env) (s : WebSocketManager.t) (c : Call)
  : WebSocketManager.t :=
  match c with
  | Connect ws cid => (WebSocketManager.connect E ws cid s).2
  | Disconnect cid => WebSocketManager.disconnect cid s
  | Subscribe cid topic => WebSocketManager.subscribe E cid topic s
  | Unsubscribe cid topic => WebSocketManager.unsubscribe cid topic s
  | SendPersonalMessage cid m => WebSocketManager.send_personal_message E cid m s
  | BroadcastToTopic topic m => WebSocketManager.broadcast_to_topic E topic m s
  | BroadcastToAll m => WebSocketManager.broadcast_to_all E m s
  | HealthCheck => WebSocketManager.health_check_pass E s
  | Cleanup => WebSocketManager.cleanup_pass s
  end.

(** The state after the calls [cs], made one after the other from [s]. *)
Definition run (E : Env) (s : WebSocketManager.t) (cs : list Call)
  : WebSocketManager.t :=
  foldl (step E) s cs.

(** ** The WebSocket endpoint of [backend/main.py] *)

Module Endpoint.

(** What [websocket.receive_text()] and [json.loads] yield: a JSON object,
    or a text on which [json.loads] or [message.get] raises. The end of the
    list is the [WebSocketDisconnect] of the client. *)
Inductive Received :=
  | Text (m : message)
  | Malformed.

Definition subscribed_message (topic : string) : message :=
  {[ "type" := "subscribed"; "topic" := topic ]}.

Definition pong_message (now : string) : message :=
  {[ "type" := "pong"; "timestamp" := now ]}.

Definition status_message (status : string) : message :=
  {[ "type" := "system_status"; "data" := status ]}.

(** The body of the receive loop for one message. [system_status] is
    [finance_system.get_system_status()], which belongs to the rest of the
    application: it yields the status in serialised form or raises. *)
Definition handle_message (E : Env)
    (system_status : list Event → result string)
    (actual_client_id : string) (m : message) (s : WebSocketManager.t)
  : result unit * WebSocketManager.t :=
  let msg_type := m !! "type" in
  if decide (msg_type = Some "subscribe") then
    match m !! "topic" with
    | Some topic =>
        if decide (topic = "") then (Return (), s)
        else (Return (),
              WebSocketManager.send_personal_message E actual_client_id
                (subscribed_message topic)
                (WebSocketManager.subscribe E actual_client_id topic s))
    | None => (Return (), s)
    end
  else if decide (msg_type = Some "unsubscribe") then
    match m !! "topic" with
    | Some topic =>
        if decide (topic = "") then (Return (), s)
        else (Return (), WebSocketManager.unsubscribe actual_client_id topic s)
    | None => (Return (), s)
    end
  else if decide (msg_type = Some "ping") then
    (Return (),
     WebSocketManager.send_personal_message E actual_client_id
       (pong_message (utcnow E (WebSocketManager.trace s))) s)
  else if decide (msg_type = Some "get_status") then
    match system_status (WebSocketManager.trace s) with
    | Return status =>
        (Return (),
         WebSocketManager.send_personal_message E actual_client_id
           (status_message status) s)
    | Raise => (Raise, s)
    end
  else (Return (), s).

(** The receive loop: it ends when the client disconnects or when an
    exception leaves it. *)
Fixpoint receive_loop (E : Env) (system_status : list Event → result string)
    (actual_client_id : string) (inbox : list Received)
    (s : WebSocketManager.t) : WebSocketManager.t :=
  match inbox with
  | [] => s
  | Malformed :: _ => s
  | Text m :: inbox' =>
      match handle_message E system_status actual_client_id m s with
      | (Return _, s') =>
          receive_loop E system_status actual_client_id inbox' s'
      | (Raise, s') => s'
      end
  end.

(** [websocket_endpoint]: [connect], the receive loop, and in the [finally]
    block [disconnect] of the client id of the path. *)
Definition websocket_endpoint (E : Env)
    (system_status : list Event → result string) (ws : nat)
    (client_id : string) (inbox : list Received) (s : WebSocketManager.t)
  : WebSocketManager.t :=
  let s2 :=
    match WebSocketManager.connect E ws (Some client_id) s with
    | (Return actual_client_id, s1) =>
        receive_loop E system_status actual_client_id inbox s1
    | (Raise, s1) => s1
    end in
  WebSocketManager.disconnect client_id s2.

End Endpoint.

(** ** Predicates on manager states *)

(** [topic_index[t]], empty when the topic has no entry. *)
Definition subscribers (s : WebSocketManager.t) (topic : string) : gset string :=
  default ∅ (WebSocketManager.subscriptions s !! topic).

(** The counter [active_connections] agrees with the [connections] dict. *)
Definition counts_agree (s : WebSocketManager.t) : Prop :=
  WebSocketManager.Stats.active_connections (WebSocketManager.stats s)
  = size (WebSocketManager.active_connections s).

(** Every subscriber of every topic has a live Connection. *)
Definition no_stale (s : WebSocketManager.t) : Prop :=
  ∀ topic c, c ∈ subscribers s topic →
    is_Some (WebSocketManager.active_connections s !! c).

(** Every entry of [connections] refers to a Connection object that exists,
    and no Connection object is stored under two client ids. Python
    guarantees the first, and [connect] the second, as it creates a new
    object at each call; every state that the manager reaches is well formed
    ([well_formed_reachable] below). *)
Definition well_formed (s : WebSocketManager.t) : Prop :=
  (∀ c l, WebSocketManager.active_connections s !! c = Some l →
          l < length (WebSocketManager.objs s))
  ∧ (∀ c1 c2 l, WebSocketManager.active_connections s !! c1 = Some l →
                WebSocketManager.active_connections s !! c2 = Some l → c1 = c2).

(** What may happen to one Connection object over time: its channel, its
    client id and its local subscription set stay, and an inactive
    Connection stays inactive. *)
Definition conn_le (c c' : ConnectionManager.t) : Prop :=
  ConnectionManager.websocket c' = ConnectionManager.websocket c
  ∧ ConnectionManager.client_id c' = ConnectionManager.client_id c
  ∧ ConnectionManager.subscriptions c' = ConnectionManager.subscriptions c
  ∧ (ConnectionManager.is_active c = false →
     ConnectionManager.is_active c' = false).

(** The same for a store of Connection objects: none is lost, and each of
    the old ones evolves as above. *)
Definition objs_le (o o' : list ConnectionManager.t) : Prop :=
  length o ≤ length o' ∧ ∀ l, l < length o → conn_le (o !!! l) (o' !!! l).

(** In the run [cs] from [s], every [subscribe] is for a client id that has
    a Connection at the time of the call. *)
Fixpoint subscribes_connected (E : Env) (s : WebSocketManager.t)
    (cs : list Call) : bool :=
  match cs with
  | [] => true
  | c :: cs' =>
      match c with
      | Subscribe cid _ =>
          bool_decide (is_Some (WebSocketManager.active_connections s !! cid))
      | _ => true
      end && subscribes_connected E (step E s c) cs'
  end.

(** The messages handed to [send_personal_message] of the Connection object
    at address [l], in the order of the calls. *)
Definition sends_to (l : nat) (evs : list Event) : list message :=
  omap (λ e, match e with
             | EvSend l' m _ _ => if decide (l' = l) then Some m else None
             | _ => None
             end) evs.

Definition is_send (e : Event) : Prop :=
  match e with EvSend _ _ _ _ => True | _ => False end.

Definition is_disconnect (e : Event) : Prop :=
  match e with EvInfo (Disconnected _) => True | _ => False end.

(** What [send_personal_message] of a Connection returns. *)
Definition send_ok (E : Env) (tr : list Event) (self : ConnectionManager.t)
    (m : message) : bool :=
  ConnectionManager.is_active self
  && bool_decide (client_state E tr (ConnectionManager.websocket self) = CONNECTED)
  && send_text E tr (ConnectionManager.websocket self) m.

(** The topic index mirrors the local subscription sets: a client with a
    Connection is a subscriber of a topic exactly when the topic is in the
    [subscriptions] set of its Connection. *)
Definition index_mirrors_local (s : WebSocketManager.t) : Prop :=
  ∀ c l topic,
    WebSocketManager.active_connections s !! c = Some l →
    (c ∈ subscribers s topic
     ↔ topic ∈ ConnectionManager.subscriptions (WebSocketManager.objs s !!! l)).

(** [send_personal_message(client_id, m)] for each [m] of [ms], one call
    after the other. *)
Definition send_all (E : Env) (client_id : string) (ms : list message)
    (s : WebSocketManager.t) : WebSocketManager.t :=
  foldl (λ s m, WebSocketManager.send_personal_message E client_id m s) s ms.

(** What holds of the fan-out loop of [broadcast_to_topic] once it has
    gone through the subscribers [ks] of the snapshot, from the state [s],
    with the message [m]: [r] is the state and the list
    [disconnected_clients] it has reached. *)
Definition fanout_inv (m : message) (s : WebSocketManager.t)
    (ks : list string) (r : WebSocketManager.t * list string) : Prop :=
  WebSocketManager.active_connections r.1 = WebSocketManager.active_connections s
  ∧ WebSocketManager.subscriptions r.1 = WebSocketManager.subscriptions s
  ∧ length (WebSocketManager.objs r.1) = length (WebSocketManager.objs s)
  ∧ (∀ l, (∀ c, c ∈ ks → WebSocketManager.active_connections s !! c ≠ Some l) →
          WebSocketManager.objs r.1 !!! l = WebSocketManager.objs s !!! l)
  ∧ (∀ c, c ∈ r.2 →
          c ∈ ks ∧ is_Some (WebSocketManager.active_connections s !! c))
  ∧ ∃ evs,
      WebSocketManager.trace r.1 = WebSocketManager.trace s ++ evs
      ∧ Forall is_send evs
      ∧ (∀ c l, c ∈ ks → WebSocketManager.active_connections s !! c = Some l →
           if ConnectionManager.is_active (WebSocketManager.objs s !!! l)
           then ∃ ok, EvSend l m true ok ∈ evs
           else c ∈ r.2)
      ∧ (∀ l m0 a ok, EvSend l m0 a ok ∈ evs →
           ∃ c, c ∈ ks ∧ WebSocketManager.active_connections s !! c = Some l
                ∧ (ok = false → c ∈ r.2)).

(** What the loop of [disconnect] does to the entry of one topic. *)
Definition without (client_id : string) (entry : option (gset string))
  : option (gset string) :=
  match entry with
  | Some X =>
      if decide (client_id ∈ X) then
        if decide (X ∖ {[client_id]} = ∅) then None
        else Some (X ∖ {[client_id]})
      else Some X
  | None => None
  end.

(** What one cleanup pass does to one queue. *)
Definition capped (messages : list message) : list message :=
  if decide (100 < length messages) then WebSocketManager.latest 100 messages
  else messages.

(** The channel [ws] is in the connected state and the write of [m] to it
    goes through, after the history [tr]. *)
Definition channel_ok (E : Env) (tr : list Event) (ws : nat) (m : message)
  : bool :=
  bool_decide (client_state E tr ws = CONNECTED) && send_text E tr ws m.

(** Sends on the Connection object at [l] that were written to the channel
    and returned success. *)
Definition deliveries (l : nat) (ms : list message) : list Event :=
  map (λ m, EvSend l m true true) ms.

(** Sends on the Connection object at [l] that found it inactive: nothing
    was written to the channel and failure was returned. *)
Definition refusals (l : nat) (ms : list message) : list Event :=
  map (λ m, EvSend l m false false) ms.

(** The events [evs] of handing the messages [ms], in their order, to an
    active Connection object at [l] that owns the channel [ws], after the
    history [tr0]: the messages [sent] are delivered, each over a channel
    that was in order; if some are left, the first of them found the
    channel out of order, so its send was tried and failed, and the others
    were refused by the then inactive Connection. *)
Definition flush_shape (E : Env) (ws l : nat) (tr0 : list Event)
    (ms : list message) (evs : list Event) : Prop :=
  ∃ sent rest,
    ms = sent ++ rest
    ∧ (∀ i m, sent !! i = Some m →
              channel_ok E (tr0 ++ deliveries l (take i sent)) ws m = true)
    ∧ match rest with
      | [] => evs = deliveries l sent
      | m :: rest' =>
          channel_ok E (tr0 ++ deliveries l sent) ws m = false
          ∧ evs = deliveries l sent ++ EvSend l m true false :: refusals l rest'
      end.

(** The messages [ms] are sent to the client id [c], one call after the
    other and with a cleanup pass afterwards if [cleanup] is set, and then
    [connect] is called with the channel [ws] for the client id [c]:
    [connect] returns [c] and stores a Connection for it, hands to that
    Connection the welcome message and then the queued messages in the
    order in which they were queued, and deletes the queue of [c]. *)
Definition flushed_on_connect (E : Env) (c : string) (ms : list message)
    (cleanup : bool) (ws : nat) (s : WebSocketManager.t) : Prop :=
  let s1 := send_all E c ms s in
  let s2 := if cleanup then WebSocketManager.cleanup_pass s1 else s1 in
  let queued := default [] (WebSocketManager.message_queue s !! c) ++ ms in
  let flushed := if cleanup then capped queued else queued in
  let l := length (WebSocketManager.objs s2) in
  let tr0 := WebSocketManager.trace s2 ++ [EvAccept ws true] in
  let w := WebSocketManager.welcome_message c (utcnow E tr0) in
  let r := WebSocketManager.connect E ws (Some c) s2 in
  r.1 = Return c
  ∧ WebSocketManager.active_connections r.2 !! c = Some l
  ∧ WebSocketManager.message_queue r.2 !! c = None
  ∧ ∃ evs,
      WebSocketManager.trace r.2 = tr0 ++ evs ++ [EvInfo (Connected c)]
      ∧ flush_shape E ws l tr0 (w :: flushed) evs.

(** No topic of the index has an empty set of subscribers. *)
Definition no_empty_topic (s : WebSocketManager.t) : Prop :=
  ∀ topic X, WebSocketManager.subscriptions s !! topic = Some X → X ≠ ∅.

(** The Connection stored under a client id carries that id. *)
Definition ids_agree (s : WebSocketManager.t) : Prop :=
  ∀ c l, WebSocketManager.active_connections s !! c = Some l →
         ConnectionManager.client_id (WebSocketManager.objs s !!! l) = c.

(** The number of calls of a Connection's [send_personal_message] that
    returned [ok]. *)
Definition outcome_count (ok : bool) (evs : list Event) : nat :=
  length (omap (λ e, match e with
                     | EvSend l _ _ b => if decide (b = ok) then Some l else None
                     | _ => None
                     end) evs).

(** From [s] to [s'] the counters [messages_sent] and [failed_sends] have
    grown by the numbers of sends that returned true and false. *)
Definition accounted (s s' : WebSocketManager.t) : Prop :=
  ∃ evs,
    WebSocketManager.trace s' = WebSocketManager.trace s ++ evs
    ∧ WebSocketManager.Stats.messages_sent (WebSocketManager.stats s')
      = WebSocketManager.Stats.messages_sent (WebSocketManager.stats s)
        + outcome_count true evs
    ∧ WebSocketManager.Stats.failed_sends (WebSocketManager.stats s')
      = WebSocketManager.Stats.failed_sends (WebSocketManager.stats s)
        + outcome_count false evs.

(** From [s] to [s'] the offline queue is kept and no client id has got a
    Connection. *)
Definition queue_kept (s s' : WebSocketManager.t) : Prop :=
  WebSocketManager.message_queue s' = WebSocketManager.message_queue s
  ∧ ∀ c, WebSocketManager.active_connections s !! c = None →
         WebSocketManager.active_connections s' !! c = None.

(** What a broadcast of [m] to [topic] that leads from [s] to [s'] means
    for the client [c] whose Connection is the object at [l]: without
    subscribers of the topic nothing happens at all; a subscriber with an
    active Connection is handed the stamped message, once; and a client that
    is no subscriber is handed nothing. *)
Definition served_once (E : Env) (topic : string) (m : message)
    (s s' : WebSocketManager.t) (c : string) (l : nat) : Prop :=
  (subscribers s topic = ∅ → s' = s)
  ∧ ∃ evs,
      WebSocketManager.trace s' = WebSocketManager.trace s ++ evs
      ∧ (c ∈ subscribers s topic →
         WebSocketManager.active_connections s !! c = Some l →
         ConnectionManager.is_active (WebSocketManager.objs s !!! l) = true →
         sends_to l evs
         = [<["timestamp" := utcnow E (WebSocketManager.trace s)]> m])
      ∧ (c ∉ subscribers s topic →
         WebSocketManager.active_connections s !! c = Some l →
         sends_to l evs = []).

(** The channel [ws] is in the connected state and transmits, whatever is
    written to it and whenever. *)
Definition healthy (E : Env) (ws : nat) : Prop :=
  ∀ tr m, client_state E tr ws = CONNECTED ∧ send_text E tr ws m = true.

(** The client [c] has a Connection, the object at [l], which is active and
    owns the channel [ws]. *)
Definition attached (s : WebSocketManager.t) (c : string) (l ws : nat)
  : Prop :=
  WebSocketManager.active_connections s !! c = Some l
  ∧ l < length (WebSocketManager.objs s)
  ∧ ConnectionManager.websocket (WebSocketManager.objs s !!! l) = ws
  ∧ ConnectionManager.is_active (WebSocketManager.objs s !!! l) = true.


(** The entry that [unsubscribe] leaves for the set [X] of subscribers. *)
Definition pruned (X : gset string) : option (gset string) :=
  if decide (X = ∅) then None else Some X.

(** ** Environments used in the examples *)

(** Every channel accepts, is connected and transmits. *)
Definition env_ok : Env :=
  {| accept := λ _ _, true;
     client_state := λ _ _, CONNECTED;
     send_text := λ _ _ _, true;
     utcnow := λ _, "2024-01-01T00:00:00";
     uuid4 := λ _, "00000000-0000-4000-8000-000000000000";
     iter_order := λ _ X, elements X;
     iter_order_perm := λ _ X, reflexivity (elements X) |}.

(** Every channel accepts and is connected, and the channel [bad] raises on
    every write. *)
Definition env_bad (bad : nat) : Env :=
  {| accept := λ _ _, true;
     client_state := λ _ _, CONNECTED;
     send_text := λ _ ws _, negb (ws =? bad);
     utcnow := λ _, "2024-01-01T00:00:00";
     uuid4 := λ _, "00000000-0000-4000-8000-000000000000";
     iter_order := λ _ X, elements X;
     iter_order_perm := λ _ X, reflexivity (elements X) |}.

(** Every channel accepts and is connected, and the channel [bad] raises
    when a news update is written to it. *)
Definition env_drop (bad : nat) : Env :=
  {| accept := λ _ _, true;
     client_state := λ _ _, CONNECTED;
     send_text := λ _ ws m,
       negb ((ws =? bad) && bool_decide (m !! "type" = Some "news_update"));
     utcnow := λ _, "2024-01-01T00:00:00";
     uuid4 := λ _, "00000000-0000-4000-8000-000000000000";
     iter_order := λ _ X, elements X;
     iter_order_perm := λ _ X, reflexivity (elements X) |}.

(** ** States used in the examples *)

(** One client, connected over a healthy channel. *)
Definition state_one : WebSocketManager.t :=
  run env_ok WebSocketManager.init [Connect 7 (Some "alice")].

(** One client whose channel failed at the welcome message: its Connection
    is inactive and still stored. *)
Definition state_dead : WebSocketManager.t :=
  run (env_bad 7) WebSocketManager.init [Connect 7 (Some "alice")].

Definition hello : message := {[ "type" := "hello" ]}.

(** Two clients subscribed to one topic. *)
Definition state_two : WebSocketManager.t :=
  run (env_drop 8) WebSocketManager.init
      [Connect 7 (Some "alice"); Connect 8 (Some "bob");
       Subscribe "alice" "news"; Subscribe "bob" "news"].

Definition news : message :=
  {[ "type" := "news_update"; "source" := "news_feed" ]}.

(** The [i]-th of a series of distinct messages. *)
Definition numbered (i : nat) : message := {[ "seq" := pretty i ]}.

(** A manager that holds 101 queued messages for a client that is not
    connected. *)
Definition state_queued : WebSocketManager.t :=
  WebSocketManager.set_message_queue
    {[ "bob" := map numbered (seq 0 101) ]} WebSocketManager.init.

(** ** The Connection *)

Section Connection.
Context (E : Env).
Implicit Types (self : ConnectionManager.t) (m : message) (tr : list Event).

Lemma set_inactive_inactive self :
  ConnectionManager.is_active self = false →
  ConnectionManager.set_inactive self = self.
Proof. destruct self as [ws cid subs lp a]; simpl; intros ->; reflexivity. Qed.

(** The value and the object that [send_personal_message] leaves. *)
Lemma send_personal_message_returns tr self m :
  ConnectionManager.send_personal_message E tr self m
  = Return (send_ok E tr self m,
            if send_ok E tr self m then self
            else ConnectionManager.set_inactive self).
Proof.
  unfold ConnectionManager.send_personal_message, ConnectionManager.send_try,
    send_ok.
  destruct (ConnectionManager.is_active self) eqn:Ha; simpl.
  - case_decide as Hst.
    + rewrite bool_decide_eq_false_2 by done. reflexivity.
    + rewrite bool_decide_eq_true_2 by done. simpl.
      destruct (send_text E tr _ m); reflexivity.
  - rewrite set_inactive_inactive by done. reflexivity.
Qed.

Lemma ping_returns tr self :
  let ok := send_text E tr (ConnectionManager.websocket self)
              (ConnectionManager.ping_message (utcnow E tr)) in
  ConnectionManager.ping E tr self
  = Return (ok, if ok then ConnectionManager.set_last_ping (utcnow E tr) self
                else ConnectionManager.set_inactive self).
Proof.
  unfold ConnectionManager.ping, ConnectionManager.ping_try; simpl.
  destruct (send_text E tr _ _); reflexivity.
Qed.

Lemma conn_le_refl self : conn_le self self.
Proof. unfold conn_le; auto. Qed.

Lemma conn_le_trans c1 c2 c3 : conn_le c1 c2 → conn_le c2 c3 → conn_le c1 c3.
Proof. unfold conn_le; intros (?&?&?&?) (?&?&?&?); repeat split; try congruence; auto. Qed.

Lemma conn_le_set_inactive self :
  conn_le self (ConnectionManager.set_inactive self).
Proof. unfold conn_le; simpl; auto. Qed.

Lemma conn_le_set_last_ping now self :
  conn_le self (ConnectionManager.set_last_ping now self).
Proof. unfold conn_le; simpl; auto. Qed.

End Connection.

(** ** Calls on a Connection object of the store *)

Section Primitives.
Context (E : Env).
Import WebSocketManager.
Implicit Types (s : t) (m : message) (l : nat).

Lemma conn_send_eq l m s :
  conn_send E l m s =
  let c := objs s !!! l in
  let ok := send_ok E (trace s) c m in
  (ok, emit (EvSend l m (ConnectionManager.is_active c) ok)
            (set_objs (<[l := if ok then c
                              else ConnectionManager.set_inactive c]> (objs s)) s)).
Proof. unfold conn_send. rewrite send_personal_message_returns. reflexivity. Qed.

Lemma conn_ping_eq l s :
  conn_ping E l s =
  let c := objs s !!! l in
  let ok := send_text E (trace s) (ConnectionManager.websocket c)
              (ConnectionManager.ping_message (utcnow E (trace s))) in
  (ok, emit (EvPing l ok)
            (set_objs (<[l := if ok
                              then ConnectionManager.set_last_ping
                                     (utcnow E (trace s)) c
                              else ConnectionManager.set_inactive c]> (objs s)) s)).
Proof. unfold conn_ping. rewrite ping_returns. reflexivity. Qed.

Lemma conn_send_active_connections l m s :
  active_connections (conn_send E l m s).2 = active_connections s.
Proof. rewrite conn_send_eq. reflexivity. Qed.

Lemma conn_send_subscriptions l m s :
  subscriptions (conn_send E l m s).2 = subscriptions s.
Proof. rewrite conn_send_eq. reflexivity. Qed.

Lemma conn_send_message_queue l m s :
  message_queue (conn_send E l m s).2 = message_queue s.
Proof. rewrite conn_send_eq. reflexivity. Qed.

Lemma conn_send_stats l m s : stats (conn_send E l m s).2 = stats s.
Proof. rewrite conn_send_eq. reflexivity. Qed.

Lemma conn_send_length l m s :
  length (objs (conn_send E l m s).2) = length (objs s).
Proof. rewrite conn_send_eq. simpl. apply length_insert. Qed.

Lemma conn_send_trace l m s :
  trace (conn_send E l m s).2
  = trace s ++ [EvSend l m (ConnectionManager.is_active (objs s !!! l))
                       (conn_send E l m s).1].
Proof. rewrite conn_send_eq. reflexivity. Qed.

(** A send to the object at [l] leaves every other object as it is. *)
Lemma conn_send_other l m s j :
  j ≠ l → objs (conn_send E l m s).2 !!! j = objs s !!! j.
Proof.
  intros Hne. rewrite conn_send_eq. simpl.
  apply list_lookup_total_insert_ne. congruence.
Qed.

(** A failed send leaves the object inactive. *)
Lemma conn_send_failed l m s :
  l < length (objs s) → (conn_send E l m s).1 = false →
  ConnectionManager.is_active (objs (conn_send E l m s).2 !!! l) = false.
Proof.
  rewrite conn_send_eq. simpl. intros Hl ->.
  rewrite list_lookup_total_insert_eq by done. reflexivity.
Qed.

(** A successful send leaves the store as it is. *)
Lemma conn_send_succeeded l m s :
  (conn_send E l m s).1 = true → objs (conn_send E l m s).2 = objs s.
Proof.
  rewrite conn_send_eq. simpl. intros ->.
  apply list_insert_id'. intros Hl. rewrite list_lookup_total_alt.
  destruct (objs s !! l) eqn:Hl'; [done|].
  apply lookup_ge_None in Hl'. lia.
Qed.

End Primitives.

(** ** The topic index and the offline queue *)

Section Index.
Import WebSocketManager.
Implicit Types (s : t) (subs : gmap string (gset string)).

(** A loop over distinct keys that rewrites the entry of its key only
    rewrites every visited entry once. *)
Lemma foldl_pointwise {V} (f : gmap string V → string → gmap string V)
    (g : option V → option V) :
  (∀ m k k', f m k !! k' = if decide (k = k') then g (m !! k) else m !! k') →
  ∀ ks m k', NoDup ks →
    foldl f m ks !! k' = if decide (k' ∈ ks) then g (m !! k') else m !! k'.
Proof.
  intros Hf ks. induction ks as [|k ks IH]; intros m k' Hnd; cbn [foldl].
  - case_decide as Hin; [set_solver | done].
  - apply NoDup_cons in Hnd as [Hk Hnd]. rewrite IH by done. rewrite Hf.
    destruct (decide (k = k')) as [->|Hne].
    + rewrite decide_False by done. rewrite decide_True by set_solver. done.
    + destruct (decide (k' ∈ ks)) as [Hin|Hin].
      * rewrite decide_True by set_solver. done.
      * rewrite decide_False by set_solver. done.
Qed.

Lemma discard_subscriber_lookup c subs topic topic' :
  discard_subscriber c subs topic !! topic'
  = if decide (topic = topic') then without c (subs !! topic)
    else subs !! topic'.
Proof.
  unfold discard_subscriber, without.
  destruct (subs !! topic) as [X|] eqn:HX.
  - destruct (decide (c ∈ X)).
    + destruct (decide (X ∖ {[c]} = ∅)).
      * rewrite lookup_delete. by case_decide.
      * rewrite lookup_insert. by case_decide.
    + case_decide; congruence.
  - case_decide; congruence.
Qed.

(** The topic index that [disconnect] leaves for a connected client. *)
Lemma discard_all_lookup c subs topic :
  foldl (discard_subscriber c) subs (elements (dom subs)) !! topic
  = without c (subs !! topic).
Proof.
  rewrite (foldl_pointwise _ (without c)).
  - case_decide as Hin; [done|].
    rewrite elem_of_elements, elem_of_dom in Hin.
    destruct (subs !! topic) eqn:Hs; [|done].
    exfalso. apply Hin. by eexists.
  - apply discard_subscriber_lookup.
  - apply NoDup_elements.
Qed.

Lemma default_without c entry :
  default ∅ (without c entry) = default ∅ entry ∖ {[c]}.
Proof.
  unfold without. destruct entry as [X|]; simpl; [|set_solver].
  destruct (decide (c ∈ X)); [|set_solver].
  destruct (decide (X ∖ {[c]} = ∅)); simpl; [|done]. set_solver.
Qed.

Lemma remove_subscriber_lookup c topic subs topic' :
  default ∅ (remove_subscriber c topic subs !! topic')
  = if decide (topic = topic') then default ∅ (subs !! topic) ∖ {[c]}
    else default ∅ (subs !! topic').
Proof.
  unfold remove_subscriber.
  destruct (subs !! topic) as [X|] eqn:HX; simpl.
  - destruct (decide (X ∖ {[c]} = ∅)) as [He|He].
    + rewrite lookup_delete. case_decide; [|done]. simpl. by rewrite He.
    + rewrite lookup_insert. by case_decide.
  - case_decide as Heq; [|done]. subst. rewrite HX. simpl. set_solver.
Qed.

Lemma add_subscriber_lookup c topic subs topic' :
  default ∅ (add_subscriber c topic subs !! topic')
  = if decide (topic = topic') then default ∅ (subs !! topic) ∪ {[c]}
    else default ∅ (subs !! topic').
Proof.
  unfold add_subscriber.
  destruct (subs !! topic) as [X|] eqn:HX; simpl.
  - rewrite lookup_insert. case_decide; [|done]. simpl.
    by rewrite (lookup_total_correct _ _ _ HX).
  - rewrite lookup_insert. case_decide; [|by rewrite lookup_insert_ne].
    simpl. by rewrite lookup_total_insert_eq.
Qed.

Lemma cleanup_one_lookup (q : gmap string (list message)) c c' :
  cleanup_one q c !! c'
  = if decide (c = c') then capped <$> q !! c else q !! c'.
Proof.
  unfold cleanup_one, capped.
  destruct (q !! c) as [ms|] eqn:Hq; simpl.
  - destruct (decide (100 < length ms)).
    + rewrite lookup_insert. by case_decide.
    + case_decide; congruence.
  - case_decide; congruence.
Qed.

(** The queue of one client after a cleanup pass. *)
Lemma cleanup_pass_lookup s c :
  message_queue (cleanup_pass s) !! c = capped <$> message_queue s !! c.
Proof.
  unfold cleanup_pass. simpl.
  rewrite (foldl_pointwise _ (fmap capped)).
  - case_decide as Hin; [done|].
    rewrite elem_of_elements, elem_of_dom in Hin.
    destruct (message_queue s !! c) eqn:Hs; [|done].
    exfalso. apply Hin. by eexists.
  - apply cleanup_one_lookup.
  - apply NoDup_elements.
Qed.

Lemma enqueue_lookup c m (q : gmap string (list message)) c' :
  enqueue c m q !! c'
  = if decide (c = c') then Some (default [] (q !! c) ++ [m]) else q !! c'.
Proof.
  unfold enqueue.
  destruct (q !! c) as [ms|] eqn:Hq; simpl.
  - rewrite lookup_insert. case_decide; [|done].
    by rewrite (lookup_total_correct _ _ _ Hq).
  - rewrite lookup_insert. case_decide; [|by rewrite lookup_insert_ne].
    by rewrite lookup_total_insert_eq.
Qed.

End Index.

(** ** A rule for invariants of the manager

    Every operation of the manager is built from a few mutations. A
    property of the state that each of them keeps is kept by every
    operation, and so by every run. *)

Section Preservation.
Context (E : Env).
Import WebSocketManager.
Variable P : t → Prop.

Hypothesis P_conn_send : ∀ l m s, P s → P (conn_send E l m s).2.
Hypothesis P_conn_ping : ∀ l s, P s → P (conn_ping E l s).2.
Hypothesis P_incr_messages_sent : ∀ s, P s → P (incr_messages_sent s).
Hypothesis P_incr_failed_sends : ∀ s, P s → P (incr_failed_sends s).
Hypothesis P_disconnect : ∀ c s, P s → P (disconnect c s).
Hypothesis P_set_message_queue : ∀ q s, P s → P (set_message_queue q s).
Hypothesis P_emit : ∀ e s, P s → P (emit e s).
Hypothesis P_register : ∀ ws cid now s, P s → P (register ws cid now s).
Hypothesis P_remove_subscriber : ∀ c topic s,
  P s → P (set_subscriptions (remove_subscriber c topic (subscriptions s)) s).
Hypothesis P_add_subscriber : ∀ c topic s,
  P s → P (set_subscriptions (add_subscriber c topic (subscriptions s)) s).

Lemma preserved_disconnect_all dc s : P s → P (disconnect_all dc s).
Proof.
  unfold disconnect_all. revert s.
  induction dc as [|c dc IH]; intros s Hs; simpl; auto.
Qed.

Lemma preserved_flush l ms s : P s → P (flush E l ms s).
Proof.
  unfold flush. revert s.
  induction ms as [|m ms IH]; intros s Hs; simpl; auto.
Qed.

Lemma preserved_fanout_one m c l acc :
  P acc.1 → P (fanout_one E m c l acc).1.
Proof.
  destruct acc as [s dc]. unfold fanout_one. simpl. intros Hs.
  destruct (ConnectionManager.is_active (objs s !!! l)); [|done].
  pose proof (P_conn_send l m s Hs) as Hs1.
  destruct (conn_send E l m s) as [[] s1]; simpl in *; auto.
Qed.

Lemma preserved_topic_step m acc c : P acc.1 → P (topic_step E m acc c).1.
Proof.
  unfold topic_step. intros Hs.
  destruct (active_connections acc.1 !! c); [|done].
  by apply preserved_fanout_one.
Qed.

Lemma preserved_foldl {A} (f : t * list string → A → t * list string) xs acc :
  (∀ acc x, P acc.1 → P (f acc x).1) → P acc.1 → P (foldl f acc xs).1.
Proof.
  intros Hf. revert acc.
  induction xs as [|x xs IH]; intros acc Hacc; simpl; auto.
Qed.

Lemma preserved_connect ws cid s : P s → P (connect E ws cid s).2.
Proof.
  intros Hs. unfold connect.
  destruct (accept E (trace s) ws); simpl; [|auto].
  apply P_emit.
  match goal with |- context [conn_send E ?l ?m ?s0] =>
    assert (P (conn_send E l m s0).2) as H3 by auto;
    destruct (message_queue (conn_send E l m s0).2 !! assigned_id E
                (trace s ++ [EvAccept ws true]) cid)
  end; [|done].
  apply P_set_message_queue. by apply preserved_flush.
Qed.

Lemma preserved_subscribe c topic s : P s → P (subscribe E c topic s).
Proof.
  intros Hs. unfold subscribe. apply P_emit.
  destruct (active_connections _ !! c); auto.
Qed.

Lemma preserved_unsubscribe c topic s : P s → P (unsubscribe c topic s).
Proof. intros Hs. unfold unsubscribe. auto. Qed.

Lemma preserved_send_personal_message c m s :
  P s → P (send_personal_message E c m s).
Proof.
  intros Hs. unfold send_personal_message.
  destruct (active_connections s !! c) as [l|]; [|auto].
  destruct (ConnectionManager.is_active (objs s !!! l)); [|auto].
  pose proof (P_conn_send l m s Hs) as Hs1.
  destruct (conn_send E l m s) as [[] s1]; simpl in *; auto.
Qed.

Lemma preserved_broadcast_to_topic topic m s :
  P s → P (broadcast_to_topic E topic m s).
Proof.
  intros Hs. unfold broadcast_to_topic.
  destruct (subscriptions s !! topic) as [X|]; [|done].
  match goal with |- context [foldl ?f ?a ?xs] =>
    assert (P (foldl f a xs).1) as Hf
      by (apply preserved_foldl; [intros; by apply preserved_topic_step|done]);
    destruct (foldl f a xs) as [s1 dc]
  end.
  by apply preserved_disconnect_all.
Qed.

Lemma preserved_broadcast_to_all m s : P s → P (broadcast_to_all E m s).
Proof.
  intros Hs. unfold broadcast_to_all.
  match goal with |- context [foldl ?f ?a ?xs] =>
    assert (P (foldl f a xs).1) as Hf
      by (apply preserved_foldl; [intros; by apply preserved_fanout_one|done]);
    destruct (foldl f a xs) as [s1 dc]
  end.
  by apply preserved_disconnect_all.
Qed.

Lemma preserved_health_check_pass s : P s → P (health_check_pass E s).
Proof.
  intros Hs. unfold health_check_pass.
  match goal with |- context [foldl ?f ?a ?xs] =>
    assert (P (foldl f a xs).1) as Hf;
    [apply preserved_foldl; [|done]|destruct (foldl f a xs) as [s1 dc]]
  end.
  - intros acc x Hacc.
    pose proof (P_conn_ping x.2 acc.1 Hacc) as Hp.
    destruct (conn_ping E x.2 acc.1) as [[] s1]; simpl in *; auto.
  - by apply preserved_disconnect_all.
Qed.

Lemma preserved_cleanup_pass s : P s → P (cleanup_pass s).
Proof. intros Hs. unfold cleanup_pass. auto. Qed.

(** Every call but [subscribe] keeps the property, with no assumption on
    what [subscribe] does to the index. *)
Lemma preserved_step_but_subscribe c s :
  (∀ cid topic, c ≠ Subscribe cid topic) → P s → P (step E s c).
Proof.
  intros Hc Hs. destruct c; simpl.
  - by apply preserved_connect.
  - by apply P_disconnect.
  - by destruct (Hc client_id topic).
  - by apply preserved_unsubscribe.
  - by apply preserved_send_personal_message.
  - by apply preserved_broadcast_to_topic.
  - by apply preserved_broadcast_to_all.
  - by apply preserved_health_check_pass.
  - by apply preserved_cleanup_pass.
Qed.

Lemma preserved_step c s : P s → P (step E s c).
Proof.
  intros Hs. destruct c; try (by apply preserved_step_but_subscribe).
  by apply preserved_subscribe.
Qed.

Lemma preserved_run cs s : P s → P (run E s cs).
Proof.
  unfold run. revert s.
  induction cs as [|c cs IH]; intros s Hs; simpl; [done|].
  apply IH. by apply preserved_step.
Qed.

End Preservation.

(** ** disconnect *)

Section Disconnect.
Import WebSocketManager.
Implicit Types (s : t) (c : string).

Lemma disconnect_absent c s :
  active_connections s !! c = None → disconnect c s = s.
Proof. unfold disconnect. by intros ->. Qed.

Lemma disconnect_active_connections c s :
  active_connections (disconnect c s) = delete c (active_connections s).
Proof.
  unfold disconnect. destruct (active_connections s !! c) eqn:Hc; [done|].
  by rewrite delete_id.
Qed.

Lemma disconnect_objs c s : objs (disconnect c s) = objs s.
Proof. unfold disconnect. by destruct (active_connections s !! c). Qed.

Lemma disconnect_message_queue c s :
  message_queue (disconnect c s) = message_queue s.
Proof. unfold disconnect. by destruct (active_connections s !! c). Qed.

Lemma disconnect_messages_sent c s :
  Stats.messages_sent (stats (disconnect c s)) = Stats.messages_sent (stats s).
Proof. unfold disconnect. by destruct (active_connections s !! c). Qed.

Lemma disconnect_failed_sends c s :
  Stats.failed_sends (stats (disconnect c s)) = Stats.failed_sends (stats s).
Proof. unfold disconnect. by destruct (active_connections s !! c). Qed.

(** [disconnect] of a connected client removes it from every topic. *)
Lemma disconnect_subscribers c s topic :
  is_Some (active_connections s !! c) →
  subscribers (disconnect c s) topic = subscribers s topic ∖ {[c]}.
Proof.
  intros [l Hl]. unfold subscribers, disconnect. rewrite Hl. simpl.
  rewrite discard_all_lookup. apply default_without.
Qed.


Lemma disconnect_trace c s :
  trace (disconnect c s)
  = trace s ++ match active_connections s !! c with
               | Some _ => [EvInfo (Disconnected c)]
               | None => []
               end.
Proof.
  unfold disconnect. destruct (active_connections s !! c); simpl; [done|].
  by rewrite app_nil_r.
Qed.


(** The trace of a series of [disconnect]s holds nothing else. *)
Lemma disconnect_all_trace dc s :
  ∃ evs, trace (disconnect_all dc s) = trace s ++ evs
         ∧ Forall is_disconnect evs.
Proof.
  revert s. induction dc as [|d dc IH]; intros s; simpl.
  - exists []. by rewrite app_nil_r.
  - destruct (IH (disconnect d s)) as (evs & -> & Hevs).
    rewrite disconnect_trace.
    destruct (active_connections s !! d).
    + exists (EvInfo (Disconnected d) :: evs). rewrite <- app_assoc.
      split; [done|]. by constructor.
    + exists evs. by rewrite app_nil_r.
Qed.

End Disconnect.

(** ** Invariants of the manager *)

Section Invariants.
Context (E : Env).
Import WebSocketManager.
Implicit Types (s : t) (o : list ConnectionManager.t).

Lemma objs_le_refl o : objs_le o o.
Proof. split; [done|]. intros. apply conn_le_refl. Qed.

Lemma objs_le_trans o1 o2 o3 : objs_le o1 o2 → objs_le o2 o3 → objs_le o1 o3.
Proof.
  intros [Hl1 H1] [Hl2 H2]. split; [lia|].
  intros l Hl. eapply conn_le_trans; [by apply H1|]. apply H2. lia.
Qed.

Lemma objs_le_insert o l c' : conn_le (o !!! l) c' → objs_le o (<[l := c']> o).
Proof.
  intros Hc. split; [by rewrite length_insert|].
  intros j Hj. destruct (decide (l = j)) as [->|Hne].
  - by rewrite list_lookup_total_insert_eq.
  - rewrite list_lookup_total_insert_ne by done. apply conn_le_refl.
Qed.

Lemma objs_le_app o o' : objs_le o (o ++ o').
Proof.
  split; [rewrite length_app; lia|].
  intros l Hl. rewrite lookup_total_app_l by done. apply conn_le_refl.
Qed.

Lemma conn_send_objs_le l m s : objs_le (objs s) (objs (conn_send E l m s).2).
Proof.
  rewrite conn_send_eq. simpl. apply objs_le_insert.
  destruct (send_ok _ _ _ _); [apply conn_le_refl|apply conn_le_set_inactive].
Qed.

Lemma conn_ping_objs_le l s : objs_le (objs s) (objs (conn_ping E l s).2).
Proof.
  rewrite conn_ping_eq. simpl. apply objs_le_insert.
  destruct (send_text _ _ _ _);
    [apply conn_le_set_last_ping|apply conn_le_set_inactive].
Qed.

(** No run loses a Connection object, changes its channel, client id or
    local subscription set, or makes an inactive one active. *)
Lemma run_objs_le cs s : objs_le (objs s) (objs (run E s cs)).
Proof.
  apply (preserved_run E (λ s', objs_le (objs s) (objs s'))); try done.
  - intros l m s' Hs. eapply objs_le_trans; [done|apply conn_send_objs_le].
  - intros l s' Hs. eapply objs_le_trans; [done|apply conn_ping_objs_le].
  - intros c s' Hs. by rewrite disconnect_objs.
  - intros ws cid now s' Hs. eapply objs_le_trans; [done|].
    simpl. apply objs_le_app.
Qed.

(** The counter of active connections. *)
Lemma counts_agree_run cs s : counts_agree s → counts_agree (run E s cs).
Proof.
  apply (preserved_run E counts_agree); unfold counts_agree; try done.
  - intros l m s'. by rewrite conn_send_stats, conn_send_active_connections.
  - intros l s'. by rewrite conn_ping_eq.
  - intros c s' Hs. unfold disconnect.
    by destruct (active_connections s' !! c).
Qed.

(** The references of [connections]. *)
Lemma well_formed_run cs s : well_formed s → well_formed (run E s cs).
Proof.
  apply (preserved_run E well_formed); unfold well_formed; try done.
  - intros l m s'.
    by rewrite conn_send_length, conn_send_active_connections.
  - intros l s'. rewrite conn_ping_eq. simpl. by rewrite length_insert.
  - intros c s' [Hb Hi]. rewrite disconnect_objs, disconnect_active_connections.
    split.
    + intros c' l [_ Hl]%lookup_delete_Some. eauto.
    + intros c1 c2 l [_ H1]%lookup_delete_Some [_ H2]%lookup_delete_Some. eauto.
  - intros ws cid now s' [Hb Hi]. simpl. rewrite length_app. simpl. split.
    + intros c l [[_ <-]|[_ Hl]]%lookup_insert_Some; [lia|].
      apply Hb in Hl. lia.
    + intros c1 c2 l [[<- <-]|[Hn1 H1]]%lookup_insert_Some
                     [[<- H]|[Hn2 H2]]%lookup_insert_Some; try done.
      * apply Hb in H2. lia.
      * apply Hb in H1. lia.
      * eauto.
Qed.

Lemma well_formed_init : well_formed init.
Proof. split; intros *; simpl; by rewrite lookup_empty. Qed.

(** The local subscription sets of the Connection objects. *)
Lemma local_subscriptions_run cs s l :
  Forall (λ c, ConnectionManager.subscriptions c = ∅) (objs s) →
  ConnectionManager.subscriptions (objs (run E s cs) !!! l) = ∅.
Proof.
  intros Hs.
  assert (Forall (λ c, ConnectionManager.subscriptions c = ∅)
                 (objs (run E s cs))) as Hall.
  { assert (∀ o j c', Forall (λ c, ConnectionManager.subscriptions c = ∅) o →
              ConnectionManager.subscriptions c'
              = ConnectionManager.subscriptions (o !!! j) →
              Forall (λ c, ConnectionManager.subscriptions c = ∅)
                     (<[j := c']> o)) as Hins.
    { intros o j c' Ho Hc. destruct (decide (j < length o)).
      - apply Forall_insert; [done|]. rewrite Hc.
        by apply (Forall_lookup_total_1 _ o j Ho).
      - rewrite list_insert_ge by lia. done. }
    apply (preserved_run E
             (λ s', Forall (λ c, ConnectionManager.subscriptions c = ∅)
                           (objs s'))); try done.
    - intros j m s' Hs'. rewrite conn_send_eq. simpl.
      apply Hins; [done|]. by destruct (send_ok _ _ _ _).
    - intros j s' Hs'. rewrite conn_ping_eq. simpl.
      apply Hins; [done|]. by destruct (send_text _ _ _ _).
    - intros c s' Hs'. by rewrite disconnect_objs.
    - intros ws cid now s' Hs'. simpl. apply Forall_app. split; [done|].
      by constructor. }
  destruct (decide (l < length (objs (run E s cs)))).
  - by apply (Forall_lookup_total_1 _ _ l Hall).
  - rewrite list_lookup_total_alt, lookup_ge_None_2 by lia. done.
Qed.

End Invariants.

(** ** connect and the offline queue *)

Section Connect.
Context (E : Env).
Import WebSocketManager.
Implicit Types (s : t) (m : message) (l : nat).

Lemma flush_active_connections l ms s :
  active_connections (flush E l ms s) = active_connections s.
Proof.
  apply (preserved_flush E (λ s', active_connections s' = active_connections s));
    [|done].
  intros. by rewrite conn_send_active_connections.
Qed.

Lemma flush_message_queue l ms s :
  message_queue (flush E l ms s) = message_queue s.
Proof.
  apply (preserved_flush E (λ s', message_queue s' = message_queue s)); [|done].
  intros. by rewrite conn_send_message_queue.
Qed.

(** A send on an inactive Connection returns failure. *)
Lemma conn_send_inactive l m s :
  ConnectionManager.is_active (objs s !!! l) = false →
  (conn_send E l m s).1 = false.
Proof. rewrite conn_send_eq. simpl. unfold send_ok. by intros ->. Qed.

(** A send on an active Connection returns what the channel allows. *)
Lemma conn_send_active l m s :
  ConnectionManager.is_active (objs s !!! l) = true →
  (conn_send E l m s).1
  = channel_ok E (trace s) (ConnectionManager.websocket (objs s !!! l)) m.
Proof.
  rewrite conn_send_eq. simpl. unfold send_ok, channel_ok. by intros ->.
Qed.

(** An inactive Connection refuses every message of the flush loop. *)
Lemma flush_refused l ms : ∀ s,
  l < length (objs s) →
  ConnectionManager.is_active (objs s !!! l) = false →
  trace (flush E l ms s) = trace s ++ refusals l ms.
Proof.
  induction ms as [|m ms IH]; intros s Hl Ha; [by rewrite app_nil_r|].
  change (flush E l (m :: ms) s) with (flush E l ms (conn_send E l m s).2).
  rewrite IH.
  - rewrite conn_send_trace, conn_send_inactive, Ha by done.
    by rewrite <- app_assoc.
  - by rewrite conn_send_length.
  - by apply conn_send_failed, conn_send_inactive.
Qed.

(** The flush loop on an active Connection: the messages are delivered in
    their order as long as the channel is in order; the first send that
    fails makes the Connection inactive, and it refuses the others. *)
Lemma flush_active ws l ms : ∀ s,
  l < length (objs s) →
  ConnectionManager.is_active (objs s !!! l) = true →
  ConnectionManager.websocket (objs s !!! l) = ws →
  ∃ evs, trace (flush E l ms s) = trace s ++ evs
         ∧ flush_shape E ws l (trace s) ms evs.
Proof.
  induction ms as [|m ms IH]; intros s Hl Ha Hws.
  { exists []. split; [by rewrite app_nil_r|]. exists [], []. by repeat split. }
  change (flush E l (m :: ms) s) with (flush E l ms (conn_send E l m s).2).
  pose proof (conn_send_active l m s Ha) as Hok. rewrite Hws in Hok.
  pose proof (conn_send_trace E l m s) as Htr. rewrite Ha, Hok in Htr.
  destruct (channel_ok E (trace s) ws m) eqn:Hch.
  - pose proof (conn_send_succeeded E l m s Hok) as Hobjs.
    destruct (IH (conn_send E l m s).2) as (evs & Htr' & sent & rest & -> & Hsent & Hrest).
    { by rewrite Hobjs. } { by rewrite Hobjs. } { by rewrite Hobjs. }
    rewrite Htr in Htr', Hsent, Hrest.
    exists (EvSend l m true true :: evs).
    split; [by rewrite Htr', <- app_assoc|].
    exists (m :: sent), rest. split; [done|]. split.
    + intros [|i] m' Hi; simpl in *.
      * injection Hi as <-. by rewrite app_nil_r.
      * specialize (Hsent i m' Hi). by rewrite <- app_assoc in Hsent.
    + destruct rest as [|m' rest']; simpl.
      * by rewrite Hrest.
      * destruct Hrest as [Hfail ->]. by rewrite <- app_assoc in Hfail.
  - exists (EvSend l m true false :: refusals l ms). split.
    + rewrite flush_refused, Htr, <- app_assoc; [done| |].
      * by rewrite conn_send_length.
      * by apply conn_send_failed.
    + exists [], (m :: ms). split; [done|]. split; [done|].
      simpl. by rewrite app_nil_r.
Qed.

(** Over a channel that stays in order everything is delivered. *)
Lemma flush_shape_healthy ws l tr0 ms evs :
  healthy E ws → flush_shape E ws l tr0 ms evs → evs = deliveries l ms.
Proof.
  intros Hws (sent & rest & -> & _ & Hrest).
  destruct rest as [|m rest']; [by rewrite app_nil_r|].
  destruct Hrest as [Hfail _]. unfold channel_ok in Hfail.
  destruct (Hws (tr0 ++ deliveries l sent) m) as [Hst Hsend].
  by rewrite Hst, Hsend, bool_decide_eq_true_2 in Hfail.
Qed.

(** What a [connect] whose channel is accepted does: the client id it
    returns and stores, the queue it deletes, and the messages it hands to
    the new Connection, the welcome message first. *)
Lemma connect_flushes ws arg s :
  accept E (trace s) ws = true →
  let c := assigned_id E (trace s ++ [EvAccept ws true]) arg in
  let l := length (objs s) in
  let tr0 := trace s ++ [EvAccept ws true] in
  (connect E ws arg s).1 = Return c
  ∧ active_connections (connect E ws arg s).2 !! c = Some l
  ∧ message_queue (connect E ws arg s).2 !! c = None
  ∧ ∃ evs,
      trace (connect E ws arg s).2 = tr0 ++ evs ++ [EvInfo (Connected c)]
      ∧ flush_shape E ws l tr0
          (welcome_message c (utcnow E tr0)
           :: default [] (message_queue s !! c)) evs.
Proof.
  intros Hacc c l tr0. unfold connect. rewrite Hacc. simpl. fold c l tr0.
  set (s2 := register ws c (utcnow E tr0) (emit (EvAccept ws true) s)).
  set (w := welcome_message c (utcnow E tr0)).
  assert (l < length (objs s2)) as Hl.
  { unfold s2. simpl. rewrite length_app. simpl. lia. }
  assert (objs s2 !!! l = ConnectionManager.init ws c (utcnow E tr0)) as Hobj.
  { unfold s2, l. simpl. by rewrite lookup_total_app_r, Nat.sub_diag. }
  assert (trace s2 = tr0) as Htr2 by done.
  assert (message_queue s2 = message_queue s) as Hq2 by done.
  assert (active_connections s2 !! c = Some l) as Hc2.
  { unfold s2. simpl. apply lookup_insert_eq. }
  rewrite conn_send_message_queue, Hq2.
  split; [done|].
  destruct (message_queue s !! c) as [ms|] eqn:Hms; simpl.
  - change (flush E l ms (conn_send E l w s2).2) with (flush E l (w :: ms) s2).
    rewrite flush_active_connections, Hc2. split; [done|].
    rewrite lookup_delete_eq. split; [done|].
    destruct (flush_active ws l (w :: ms) s2 Hl) as (evs & Htr & Hshape);
      [by rewrite Hobj ..|].
    exists evs. rewrite Htr, Htr2, <- app_assoc. by rewrite Htr2 in Hshape.
  - rewrite conn_send_active_connections, Hc2, conn_send_message_queue, Hq2.
    split; [done|]. split; [done|].
    destruct (flush_active ws l [w] s2 Hl) as (evs & Htr & Hshape);
      [by rewrite Hobj ..|].
    change (flush E l [w] s2) with (conn_send E l w s2).2 in Htr.
    exists evs. rewrite Htr, Htr2, <- app_assoc. by rewrite Htr2 in Hshape.
Qed.

Lemma enqueue_all_lookup c ms : ∀ q : gmap string (list message),
  default [] (foldl (λ q m, enqueue c m q) q ms !! c)
  = default [] (q !! c) ++ ms.
Proof.
  induction ms as [|m ms IH]; intros q; simpl; [by rewrite app_nil_r|].
  rewrite IH, enqueue_lookup, decide_True by done. simpl.
  by rewrite <- app_assoc.
Qed.

(** Messages sent to a client without Connection only fill its queue. *)
Lemma send_all_offline c ms : ∀ s,
  active_connections s !! c = None →
  send_all E c ms s
  = set_message_queue (foldl (λ q m, enqueue c m q) (message_queue s) ms) s.
Proof.
  unfold send_all.
  induction ms as [|m ms IH]; intros s Hc; simpl; [by destruct s|].
  unfold send_personal_message at 2. rewrite Hc. by rewrite IH.
Qed.

End Connect.

(** ** The fan-out of broadcast_to_topic *)

Section Broadcast.
Context (E : Env).
Import WebSocketManager.
Implicit Types (s : t) (m : message) (l : nat) (ks : list string).

Lemma fanout_inv_nil m s : fanout_inv m s [] (s, []).
Proof.
  unfold fanout_inv. simpl. repeat (split; [done || set_solver|]).
  exists []. rewrite app_nil_r. repeat split; try done; set_solver.
Qed.

Lemma fanout_inv_step m s ks r k :
  well_formed s → k ∉ ks →
  fanout_inv m s ks r → fanout_inv m s (ks ++ [k]) (topic_step E m r k).
Proof.
  intros [Hbound Hinj] Hk.
  destruct r as [s1 dc].
  intros (Hc & Hsub & Hlen & Hobj & Hdc & evs & Htr & Hsend & Ha & Hf).
  simpl in *. unfold topic_step. simpl. rewrite Hc.
  destruct (active_connections s !! k) as [l|] eqn:Hkl.
  - assert (objs s1 !!! l = objs s !!! l) as Hsame.
    { apply Hobj. intros c Hin Hcl. apply Hk.
      by rewrite <- (Hinj c k l Hcl Hkl). }
    unfold fanout_one. rewrite Hsame.
    destruct (ConnectionManager.is_active (objs s !!! l)) eqn:Hact.
    + pose proof (conn_send_active_connections E l m s1) as Hc'.
      pose proof (conn_send_subscriptions E l m s1) as Hsub'.
      pose proof (conn_send_length E l m s1) as Hlen'.
      pose proof (conn_send_trace E l m s1) as Htr'.
      pose proof (λ j, conn_send_other E l m s1 j) as Hoth.
      rewrite Hsame, Hact in Htr'.
      destruct (conn_send E l m s1) as [ok s1']. simpl in *.
      assert (∀ l', (∀ c, c ∈ ks ++ [k] → active_connections s !! c ≠ Some l') →
                    objs s1' !!! l' = objs s !!! l') as Hobj'.
      { intros l' Hno. rewrite Hoth.
        - apply Hobj. intros c Hin. apply Hno. set_solver.
        - intros ->. apply (Hno k); [set_solver|done]. }
      assert (trace s1' = trace s ++ (evs ++ [EvSend l m true ok])) as Htr''.
      { by rewrite Htr', Htr, <- app_assoc. }
      assert (Forall is_send (evs ++ [EvSend l m true ok])) as Hsend'.
      { apply Forall_app. split; [done|]. by repeat constructor. }
      destruct ok; simpl; unfold fanout_inv; simpl.
      * split; [congruence|]. split; [congruence|]. split; [congruence|].
        split; [done|]. split.
        { intros c Hin. destruct (Hdc c Hin). split; [set_solver|done]. }
        exists (evs ++ [EvSend l m true true]).
        split; [done|]. split; [done|]. split.
        { intros c l' [Hin| ->%list_elem_of_singleton]%elem_of_app Hcl.
          - specialize (Ha c l' Hin Hcl).
            destruct (ConnectionManager.is_active (objs s !!! l')); [|done].
            destruct Ha as [ok Hok]. exists ok. set_solver.
          - assert (l' = l) as -> by congruence. rewrite Hact.
            exists true. set_solver. }
        intros l' m0 a ok [Hin|Hin%list_elem_of_singleton]%elem_of_app.
        { destruct (Hf l' m0 a ok Hin) as (c & Hcin & Hcl & Hfail).
          exists c. split; [set_solver|]. done. }
        inversion Hin; subst. exists k. split; [set_solver|]. done.
      * split; [congruence|]. split; [congruence|]. split; [congruence|].
        split; [done|]. split.
        { intros c [Hin| ->%list_elem_of_singleton]%elem_of_app.
          - destruct (Hdc c Hin). split; [set_solver|done].
          - split; [set_solver|by eexists]. }
        exists (evs ++ [EvSend l m true false]).
        split; [done|]. split; [done|]. split.
        { intros c l' [Hin| ->%list_elem_of_singleton]%elem_of_app Hcl.
          - specialize (Ha c l' Hin Hcl).
            destruct (ConnectionManager.is_active (objs s !!! l')); [|set_solver].
            destruct Ha as [ok Hok]. exists ok. set_solver.
          - assert (l' = l) as -> by congruence. rewrite Hact.
            exists false. set_solver. }
        intros l' m0 a ok [Hin|Hin%list_elem_of_singleton]%elem_of_app.
        { destruct (Hf l' m0 a ok Hin) as (c & Hcin & Hcl & Hfail).
          exists c. split; [set_solver|]. split; [done|].
          intros Hok. set_solver. }
        inversion Hin; subst. exists k. split; [set_solver|].
        split; [done|]. set_solver.
    + unfold fanout_inv. simpl.
      split; [done|]. split; [done|]. split; [done|]. split.
      { intros l' Hno. apply Hobj. intros c Hin. apply Hno. set_solver. }
      split.
      { intros c [Hin| ->%list_elem_of_singleton]%elem_of_app.
        - destruct (Hdc c Hin). split; [set_solver|done].
        - split; [set_solver|by eexists]. }
      exists evs. split; [done|]. split; [done|]. split.
      { intros c l' [Hin| ->%list_elem_of_singleton]%elem_of_app Hcl.
        - specialize (Ha c l' Hin Hcl).
          destruct (ConnectionManager.is_active (objs s !!! l')); [done|].
          set_solver.
        - assert (l' = l) as -> by congruence. rewrite Hact. set_solver. }
      intros l' m0 a ok Hin.
      destruct (Hf l' m0 a ok Hin) as (c & Hcin & Hcl & Hfail).
      exists c. split; [set_solver|]. split; [done|].
      intros Hok. set_solver.
  - unfold fanout_inv. simpl.
    split; [done|]. split; [done|]. split; [done|]. split.
    { intros l' Hno. apply Hobj. intros c Hin. apply Hno. set_solver. }
    split.
    { intros c Hin. destruct (Hdc c Hin). split; [set_solver|done]. }
    exists evs. split; [done|]. split; [done|]. split.
    { intros c l' [Hin| ->%list_elem_of_singleton]%elem_of_app Hcl;
        [by apply Ha|congruence]. }
    intros l' m0 a ok Hin.
    destruct (Hf l' m0 a ok Hin) as (c & Hcin & Hcl & Hfail).
    exists c. split; [set_solver|]. done.
Qed.

(** The fan-out loop over a snapshot without repetition. *)
Lemma fanout_inv_foldl m s ks :
  well_formed s → NoDup ks →
  fanout_inv m s ks (foldl (topic_step E m) (s, []) ks).
Proof.
  intros Hwf. induction ks as [|k ks IH] using rev_ind; intros Hnd.
  - apply fanout_inv_nil.
  - apply NoDup_app in Hnd as (Hnd & Hk & _). rewrite foldl_snoc.
    apply fanout_inv_step; [done| |by apply IH].
    intros Hin. apply (Hk k Hin). set_solver.
Qed.

End Broadcast.

(** ** The manager at work *)

Section Examples.
Import WebSocketManager.

(** Every state that the manager reaches from its construction is well
    formed. *)
Corollary well_formed_reachable (E : Env) (cs : list Call) :
  well_formed (run E init cs).
Proof. apply well_formed_run, well_formed_init. Qed.

(** A [connect] raises the counter by one and a [disconnect] brings it
    back. *)
Example connect_then_disconnect :
  Stats.active_connections (stats state_one) = 1
  ∧ Stats.active_connections (stats (disconnect "alice" state_one)) = 0
  ∧ Stats.total_connections (stats (disconnect "alice" state_one)) = 1.
Proof. intros; repeat apply conj; vm_compute; reflexivity. Qed.

(** A client whose welcome message cannot be written is stored with an
    inactive Connection; the next message for it removes it and is not
    queued. *)
Example dead_client_is_removed_by_next_send :
  active_connections state_dead !! "alice" = Some 0
  ∧ ConnectionManager.is_active (objs state_dead !!! 0) = false
  ∧ active_connections
      (send_personal_message (env_bad 7) "alice" hello state_dead) !! "alice"
    = None
  ∧ message_queue
      (send_personal_message (env_bad 7) "alice" hello state_dead) !! "alice"
    = None.
Proof. intros; repeat apply conj; vm_compute; reflexivity. Qed.

(** A broadcast to a topic with one healthy and one failing subscriber: the
    healthy one is served, the failing one is gone afterwards. *)
Example broadcast_with_one_failure :
  let s' := broadcast_to_topic (env_drop 8) "news" news state_two in
  elements (subscribers state_two "news") = ["alice"; "bob"]
  ∧ elements (subscribers s' "news") = ["alice"]
  ∧ active_connections s' !! "alice" = Some 0
  ∧ active_connections s' !! "bob" = None
  ∧ Stats.messages_sent (stats s') = 1
  ∧ Stats.failed_sends (stats s') = 1
  ∧ Stats.active_connections (stats s') = 1.
Proof. intros; repeat apply conj; vm_compute; reflexivity. Qed.

(** A [subscribe] followed by an [unsubscribe] of the only subscriber
    removes the topic. *)
Example unsubscribe_prunes_empty_topic :
  subscriptions (run env_ok state_one [Subscribe "alice" "news"]) !! "news"
  = Some {[ "alice" ]}
  ∧ subscriptions
      (run env_ok state_one
           [Subscribe "alice" "news"; Unsubscribe "alice" "news"]) !! "news"
    = None.
Proof. intros; repeat apply conj; vm_compute; reflexivity. Qed.

(** A [connect] with an empty client id makes up a fresh id: a queue kept
    under the empty id is neither flushed nor deleted. *)
Example connect_with_empty_id :
  let s := send_personal_message env_ok "" hello state_one in
  (connect env_ok 9 (Some "") s).1 = Return (uuid4 env_ok [])
  ∧ message_queue (connect env_ok 9 (Some "") s).2 !! "" = Some [hello]
  ∧ length (sends_to 1 (trace (connect env_ok 9 (Some "") s).2)) = 1.
Proof. intros; repeat apply conj; vm_compute; reflexivity. Qed.

End Examples.

(** ** Properties of the specification *)

Section Claims.
Import WebSocketManager.

(** C3. After every call of a public operation (and after every pass of the
    two background loops), made in any state the manager can reach from its
    construction, the counter [stats["active_connections"]] equals the
    number of entries of [connections]. *)
Theorem active_connections_counts_connections (E : Env) (cs : list Call)
    (c : Call) :
  counts_agree (step E (run E init cs) c).
Proof.
  replace (step E (run E init cs) c) with (run E init (cs ++ [c]))
    by apply foldl_snoc.
  apply counts_agree_run. reflexivity.
Qed.

(** C8. [disconnect] is idempotent: a second [disconnect] of the same client
    id changes nothing at all, and a [disconnect] of a client id that has
    no entry in [connections] leaves the whole state as it is. *)
Theorem disconnect_idempotent (c : string) (s : t) :
  disconnect c (disconnect c s) = disconnect c s
  ∧ (active_connections s !! c = None → disconnect c s = s).
Proof.
  split; [|apply disconnect_absent].
  apply disconnect_absent. rewrite disconnect_active_connections.
  apply lookup_delete_eq.
Qed.

Lemma disconnect_idempotent_witness :
  disconnect "bob" state_one = state_one.
Proof.
  apply (proj2 (disconnect_idempotent "bob" state_one)). reflexivity.
Defined.

(** C9. [disconnect] leaves the offline queue as it is, for the client that
    is disconnected and for every other one. *)
Theorem disconnect_keeps_message_queue (c : string) (s : t) :
  message_queue (disconnect c s) = message_queue s.
Proof. apply disconnect_message_queue. Qed.

(** C10. A [send_personal_message] to a client whose Connection is stored
    but inactive is a [disconnect] of that client: the client leaves
    [connections] and neither [messages_sent] nor [failed_sends] changes.
    In general [failed_sends] grows, by one, exactly when the client has an
    active Connection and that Connection's send returns failure. *)
Theorem send_to_inactive_only_disconnects (E : Env) (c : string) (m : message)
    (s : t) :
  (∀ l, active_connections s !! c = Some l →
        ConnectionManager.is_active (objs s !!! l) = false →
        send_personal_message E c m s = disconnect c s
        ∧ active_connections (send_personal_message E c m s) !! c = None
        ∧ Stats.messages_sent (stats (send_personal_message E c m s))
          = Stats.messages_sent (stats s)
        ∧ Stats.failed_sends (stats (send_personal_message E c m s))
          = Stats.failed_sends (stats s))
  ∧ Stats.failed_sends (stats (send_personal_message E c m s))
    = Stats.failed_sends (stats s)
      + match active_connections s !! c with
        | Some l =>
            if ConnectionManager.is_active (objs s !!! l)
               && negb (send_ok E (trace s) (objs s !!! l) m)
            then 1 else 0
        | None => 0
        end.
Proof.
  split.
  - intros l Hl Ha. unfold send_personal_message. rewrite Hl, Ha.
    split; [done|]. rewrite disconnect_active_connections.
    rewrite disconnect_messages_sent, disconnect_failed_sends.
    by rewrite lookup_delete_eq.
  - unfold send_personal_message.
    destruct (active_connections s !! c) as [l|]; [|simpl; lia].
    destruct (ConnectionManager.is_active (objs s !!! l)); simpl.
    + rewrite conn_send_eq. simpl.
      destruct (send_ok E (trace s) (objs s !!! l) m); simpl; [lia|].
      rewrite disconnect_failed_sends. simpl. lia.
    + rewrite disconnect_failed_sends. lia.
Qed.

Lemma send_to_inactive_only_disconnects_witness :
  send_personal_message env_ok "alice" hello state_dead
  = disconnect "alice" state_dead
  ∧ active_connections
      (send_personal_message env_ok "alice" hello state_dead) !! "alice" = None
  ∧ Stats.messages_sent
      (stats (send_personal_message env_ok "alice" hello state_dead))
    = Stats.messages_sent (stats state_dead)
  ∧ Stats.failed_sends
      (stats (send_personal_message env_ok "alice" hello state_dead))
    = Stats.failed_sends (stats state_dead).
Proof.
  apply (proj1 (send_to_inactive_only_disconnects env_ok "alice" hello
                  state_dead) 0); reflexivity.
Defined.

(** C6. One pass of the cleanup loop cuts every queue of more than 100
    messages down to its last 100 messages, in their order, and leaves every
    queue of at most 100 messages as it is. *)
Theorem cleanup_pass_keeps_latest_100 (s : t) (c : string)
    (q : list message) :
  message_queue s !! c = Some q →
  (100 < length q →
   message_queue (cleanup_pass s) !! c = Some (drop (length q - 100) q)
   ∧ length (drop (length q - 100) q) = 100
   ∧ drop (length q - 100) q `suffix_of` q)
  ∧ (length q ≤ 100 → message_queue (cleanup_pass s) !! c = Some q).
Proof.
  intros Hq. rewrite cleanup_pass_lookup, Hq. unfold capped, latest. simpl.
  split; intros Hlen.
  - rewrite decide_True by done. split; [done|].
    split; [rewrite length_drop; lia|apply suffix_drop].
  - rewrite decide_False by lia. done.
Qed.

Lemma cleanup_pass_keeps_latest_100_witness :
  100 < length (map numbered (seq 0 101))
  ∧ message_queue (cleanup_pass state_queued) !! "bob"
    = Some (drop (length (map numbered (seq 0 101)) - 100)
                 (map numbered (seq 0 101))).
Proof.
  assert (100 < length (map numbered (seq 0 101))) as Hlen
    by (rewrite length_map, length_seq; lia).
  split; [exact Hlen|].
  apply (proj1 (cleanup_pass_keeps_latest_100 state_queued "bob"
                  (map numbered (seq 0 101)) (lookup_singleton_eq _ _)) Hlen).
Defined.

(** C7. [send_personal_message] of a Connection never raises: whatever the
    message and whatever the channel does, it returns a boolean, which is
    true exactly when the Connection was active, the channel was in the
    connected state and the write went through; the flag [is_active] is
    afterwards equal to the returned value, so every failure leaves it
    false. [ping] returns as well and keeps an inactive Connection
    inactive, and no operation or background pass of the manager makes an
    inactive Connection object active again. *)
Theorem connection_send_never_raises (E : Env) :
  (∀ tr self m, ∃ self',
     ConnectionManager.send_personal_message E tr self m
     = Return (send_ok E tr self m, self')
     ∧ ConnectionManager.is_active self' = send_ok E tr self m)
  ∧ (∀ tr self, ∃ ok self',
       ConnectionManager.ping E tr self = Return (ok, self')
       ∧ (ConnectionManager.is_active self = false →
          ConnectionManager.is_active self' = false))
  ∧ (∀ call s l,
       l < length (objs s) →
       ConnectionManager.is_active (objs s !!! l) = false →
       ConnectionManager.is_active (objs (step E s call) !!! l) = false).
Proof.
  split; [|split].
  - intros tr self m. rewrite send_personal_message_returns.
    eexists. split; [reflexivity|].
    unfold send_ok.
    destruct (ConnectionManager.is_active self) eqn:Ha; simpl; [|done].
    destruct (bool_decide _ && send_text E tr _ m) eqn:Hok; simpl; done.
  - intros tr self. rewrite ping_returns. simpl.
    eexists _, _. split; [reflexivity|].
    by destruct (send_text E tr _ _).
  - intros call s l Hl Ha.
    destruct (run_objs_le E [call] s) as [_ Hle].
    by apply (Hle l Hl).
Qed.

Lemma connection_send_never_raises_witness :
  ConnectionManager.is_active
    (objs (step env_ok state_dead (SendPersonalMessage "bob" hello)) !!! 0)
  = false.
Proof.
  apply (proj2 (proj2 (connection_send_never_raises env_ok))
           (SendPersonalMessage "bob" hello) state_dead 0);
    [vm_compute; lia | reflexivity].
Defined.

(** C2, as stated, fails: [subscribe] adds the client id to the topic
    before it looks whether the client has a Connection, so a [subscribe]
    for an unknown client leaves a subscriber without Connection. *)
Lemma subscribe_unknown_client_is_stale :
  ¬ no_stale (run env_ok init [Subscribe "ghost" "news"]).
Proof.
  set (s := run env_ok init [Subscribe "ghost" "news"]).
  assert ("ghost" ∈ subscribers s "news") as Hin
    by (apply (bool_decide_unpack _); vm_compute; exact I).
  assert (active_connections s !! "ghost" = None) as Hconn
    by (vm_compute; reflexivity).
  intros Hns. destruct (Hns "news" "ghost" Hin) as [l Hl]. congruence.
Qed.

(** C2, amended. In every state reached from the constructor by calls among
    which each [subscribe] is for a client id that has a Connection at the
    time of the call, every subscriber of every topic has an entry in
    [connections]. *)
Theorem no_stale_when_subscribers_connected (E : Env) (cs : list Call) :
  subscribes_connected E init cs = true → no_stale (run E init cs).
Proof.
  assert (no_stale init) as Hinit.
  { intros topic c. unfold subscribers. simpl. rewrite lookup_empty. set_solver. }
  revert Hinit. generalize init.
  induction cs as [|c cs IH]; intros s Hs Hcs; [done|].
  simpl in Hcs. apply andb_prop in Hcs as [Hc Hcs].
  simpl. apply IH; [|done]. clear IH Hcs.
  assert (∀ call, (∀ cid topic, call ≠ Subscribe cid topic) →
                  no_stale (step E s call)) as Hrest.
  { intros call Hcall. clear Hc.
    apply (preserved_step_but_subscribe E no_stale); try done.
    - intros l m s' Hs' topic c'. unfold subscribers.
      rewrite conn_send_subscriptions, conn_send_active_connections.
      apply Hs'.
    - intros l s' Hs' topic c'. unfold subscribers. rewrite conn_ping_eq.
      apply Hs'.
    - intros d s' Hs' topic c' Hin.
      rewrite disconnect_active_connections.
      destruct (active_connections s' !! d) as [l|] eqn:Hd.
      + rewrite disconnect_subscribers in Hin by eauto.
        apply elem_of_difference in Hin as [Hin Hne'].
        rewrite lookup_delete_ne by set_solver. by apply (Hs' topic).
      + rewrite disconnect_absent in Hin by done.
        rewrite delete_id by done. by apply (Hs' topic).
    - intros ws cid now s' Hs' topic c' Hin. simpl.
      apply lookup_insert_is_Some'. right. by apply (Hs' topic).
    - intros d topic s' Hs' topic' c'. unfold subscribers. simpl.
      rewrite remove_subscriber_lookup. case_decide; [|apply Hs'].
      subst. intros [Hin _]%elem_of_difference. by apply (Hs' topic'). }
  destruct c as [| |cid topic| | | | | |]; try (by apply Hrest).
  apply bool_decide_eq_true_1 in Hc. simpl.
  intros topic' c'. unfold subscribers, subscribe. simpl.
  destruct (active_connections s !! cid) as [l|] eqn:Hl; [|by destruct Hc].
  rewrite conn_send_subscriptions, conn_send_active_connections. simpl.
  rewrite add_subscriber_lookup. case_decide as Heq.
  - intros [Hin| ->%elem_of_singleton]%elem_of_union; [|by eexists].
    by apply (Hs topic).
  - apply (Hs topic').
Qed.

Lemma no_stale_when_subscribers_connected_witness :
  no_stale (run env_ok init
              [Connect 7 (Some "alice"); Subscribe "alice" "news";
               SendPersonalMessage "bob" hello; Disconnect "alice"]).
Proof.
  apply (no_stale_when_subscribers_connected env_ok). reflexivity.
Defined.

(** C1, as stated, fails: after [connect] and [subscribe] the client is a
    subscriber of the topic while the [subscriptions] set of its Connection
    is still empty. *)
Lemma subscribe_does_not_reach_the_connection :
  ¬ index_mirrors_local
      (run env_ok init [Connect 7 (Some "alice"); Subscribe "alice" "news"]).
Proof.
  set (s := run env_ok init [Connect 7 (Some "alice"); Subscribe "alice" "news"]).
  assert (active_connections s !! "alice" = Some 0) as Hconn
    by (vm_compute; reflexivity).
  assert (ConnectionManager.subscriptions (objs s !!! 0) = ∅) as Hlocal
    by (vm_compute; reflexivity).
  assert ("alice" ∈ subscribers s "news") as Hin
    by (apply (bool_decide_unpack _); vm_compute; exact I).
  intros Hm. apply (Hm "alice" 0 "news" Hconn) in Hin.
  rewrite Hlocal in Hin. set_solver.
Qed.

(** C1, amended. No operation writes the [subscriptions] set of a
    Connection: in every state reached from the constructor that set is
    empty for every Connection object, and [subscribe] makes the client a
    subscriber of the topic in the topic index only. *)
Theorem local_subscriptions_stay_empty (E : Env) (cs : list Call)
    (c topic : string) (l : nat) :
  ConnectionManager.subscriptions (objs (run E init cs) !!! l) = ∅
  ∧ c ∈ subscribers (subscribe E c topic (run E init cs)) topic
  ∧ ConnectionManager.subscriptions
      (objs (subscribe E c topic (run E init cs)) !!! l) = ∅.
Proof.
  split; [by apply local_subscriptions_run|]. split.
  - unfold subscribers, subscribe. simpl.
    destruct (active_connections (run E init cs) !! c).
    + rewrite conn_send_subscriptions. simpl.
      rewrite add_subscriber_lookup, decide_True by done. set_solver.
    + simpl. rewrite add_subscriber_lookup, decide_True by done. set_solver.
  - change (subscribe E c topic (run E init cs))
      with (step E (run E init cs) (Subscribe c topic)).
    unfold run. rewrite <- foldl_snoc. by apply local_subscriptions_run.
Qed.

(** C5, as stated, fails for the empty client id: [connect] takes an empty
    id for a missing one and makes up a fresh id, so the messages queued
    under the empty id are handed to no Connection and their queue is not
    deleted. Here the empty id has no Connection and the channel is
    accepted. *)
Lemma connect_with_empty_id_keeps_the_queue :
  message_queue
    (connect env_ok 9 (Some "")
       (send_all env_ok "" [numbered 1; numbered 2] state_one)).2 !! ""
  = Some [numbered 1; numbered 2]
  ∧ ¬ flushed_on_connect env_ok "" [numbered 1; numbered 2] false 9 state_one.
Proof.
  assert (message_queue
            (connect env_ok 9 (Some "")
               (send_all env_ok "" [numbered 1; numbered 2] state_one)).2 !! ""
          = Some [numbered 1; numbered 2]) as Hq
    by (vm_compute; reflexivity).
  split; [exact Hq|].
  intros (_ & _ & Hdel & _). cbv zeta in Hdel. congruence.
Qed.

(** C5, amended. Let a client id that is not empty have no entry in
    [connections], let the messages [ms] be sent to it by
    [send_personal_message], one call after the other, and let a [connect]
    for that client id follow whose channel is accepted, with or without a
    cleanup pass in between. Then [connect] returns the client id and hands
    to the new Connection, after the welcome message, exactly the messages
    that were queued before followed by [ms], in that order (cut to the
    queue cap if the cleanup pass ran): they are delivered in that order as
    long as the channel is connected and transmits; the first send that
    fails makes the Connection inactive, which then refuses the messages
    that are left; over a channel that stays in order all of them are
    delivered. Afterwards the queue entry of the client id is deleted. *)
Theorem queued_messages_flushed_in_order (E : Env) (c : string)
    (ms : list message) (cleanup : bool) (ws : nat) (s : t) :
  let s1 := send_all E c ms s in
  let s2 := if cleanup then cleanup_pass s1 else s1 in
  let queued := default [] (message_queue s !! c) ++ ms in
  let flushed := if cleanup then capped queued else queued in
  let tr0 := trace s2 ++ [EvAccept ws true] in
  c ≠ "" →
  active_connections s !! c = None →
  accept E (trace s2) ws = true →
  flushed_on_connect E c ms cleanup ws s
  ∧ (healthy E ws →
     trace (connect E ws (Some c) s2).2
     = tr0 ++ deliveries (length (objs s2))
                         (welcome_message c (utcnow E tr0) :: flushed)
           ++ [EvInfo (Connected c)]).
Proof.
  intros s1 s2 queued flushed tr0 Hid Hc Hacc.
  destruct (connect_flushes E ws (Some c) s2 Hacc)
    as (Hr & Hl & Hq & evs & Htr & Hshape).
  unfold assigned_id in Hr, Hl, Hq, Htr, Hshape.
  rewrite decide_False in Hr, Hl, Hq, Htr, Hshape by done.
  assert (default [] (message_queue s2 !! c) = flushed) as Hqueued.
  { assert (default [] (message_queue s1 !! c) = queued) as Hq1.
    { unfold s1. rewrite send_all_offline by done. simpl.
      apply enqueue_all_lookup. }
    unfold s2, flushed. destruct cleanup; [|done].
    rewrite cleanup_pass_lookup.
    destruct (message_queue s1 !! c) as [q|] eqn:Hq'; simpl in *.
    - by rewrite Hq1.
    - by rewrite <- Hq1. }
  rewrite Hqueued in Hshape.
  split.
  - unfold flushed_on_connect. cbv zeta. fold s1 s2.
    repeat (split; [done|]). by exists evs.
  - intros Hws. rewrite Htr.
    by rewrite (flush_shape_healthy E ws _ _ _ evs Hws Hshape).
Qed.

Lemma queued_messages_flushed_in_order_witness :
  flushed_on_connect env_ok "bob" [numbered 1; numbered 2; numbered 3] false 9
                     state_one.
Proof.
  apply (queued_messages_flushed_in_order env_ok "bob"
           [numbered 1; numbered 2; numbered 3] false 9 state_one).
  - discriminate.
  - reflexivity.
  - reflexivity.
Defined.



End Claims.

(** ** Further properties: counters, topics and statistics *)

Section Topics.
Context (E : Env).
Import WebSocketManager.
Implicit Types (s : t) (subs : gmap string (gset string)).

Lemma add_subscriber_entry c topic subs topic' :
  add_subscriber c topic subs !! topic'
  = if decide (topic = topic')
    then Some (default ∅ (subs !! topic) ∪ {[c]})
    else subs !! topic'.
Proof.
  unfold add_subscriber.
  destruct (subs !! topic) as [X|] eqn:HX; simpl.
  - rewrite lookup_insert. case_decide; [|done].
    by rewrite (lookup_total_correct _ _ _ HX).
  - rewrite lookup_insert. case_decide; [|by rewrite lookup_insert_ne].
    by rewrite lookup_total_insert_eq.
Qed.

Lemma remove_subscriber_entry c topic subs topic' :
  remove_subscriber c topic subs !! topic'
  = if decide (topic = topic')
    then subs !! topic ≫= λ X, pruned (X ∖ {[c]})
    else subs !! topic'.
Proof.
  unfold remove_subscriber, pruned.
  destruct (subs !! topic) as [X|] eqn:HX; simpl.
  - destruct (decide (X ∖ {[c]} = ∅)).
    + rewrite lookup_delete. by case_decide.
    + rewrite lookup_insert. by case_decide.
  - case_decide; congruence.
Qed.

Lemma disconnect_entry c s topic :
  is_Some (active_connections s !! c) →
  subscriptions (disconnect c s) !! topic = without c (subscriptions s !! topic).
Proof.
  intros [l Hl]. unfold disconnect. rewrite Hl. simpl.
  apply discard_all_lookup.
Qed.

Lemma subscribe_subscriptions c topic s :
  subscriptions (subscribe E c topic s)
  = add_subscriber c topic (subscriptions s).
Proof.
  unfold subscribe. simpl.
  destruct (active_connections s !! c); [|done].
  by rewrite conn_send_subscriptions.
Qed.

Lemma unsubscribe_subscriptions c topic s :
  subscriptions (unsubscribe c topic s)
  = remove_subscriber c topic (subscriptions s).
Proof. reflexivity. Qed.

Lemma disconnect_total_connections c s :
  Stats.total_connections (stats (disconnect c s))
  = Stats.total_connections (stats s).
Proof. unfold disconnect. by destruct (active_connections s !! c). Qed.

(** No run leaves a topic without subscribers in the index. *)
Lemma no_empty_topic_run cs s : no_empty_topic s → no_empty_topic (run E s cs).
Proof.
  apply (preserved_run E no_empty_topic); unfold no_empty_topic; try done.
  - intros l m s'. by rewrite conn_send_subscriptions.
  - intros l s'. by rewrite conn_ping_eq.
  - intros c s' Hs' topic X.
    destruct (active_connections s' !! c) as [l|] eqn:Hl;
      [|rewrite disconnect_absent by done; apply Hs'].
    rewrite disconnect_entry by eauto. unfold without.
    destruct (subscriptions s' !! topic) as [Y|] eqn:HY; [|done].
    destruct (decide (c ∈ Y)).
    + destruct (decide (Y ∖ {[c]} = ∅)); [done|]. by intros [= <-].
    + intros [= <-]. by apply (Hs' topic).
  - intros c topic s' Hs' topic' X. simpl.
    rewrite remove_subscriber_entry. case_decide; [|apply Hs'].
    destruct (subscriptions s' !! topic) as [Y|]; simpl; [|done].
    unfold pruned. case_decide; [done|]. by intros [= <-].
  - intros c topic s' Hs' topic' X. simpl.
    rewrite add_subscriber_entry. case_decide; [|apply Hs'].
    intros [= <-]. set_solver.
Qed.

Lemma no_empty_topic_init : no_empty_topic init.
Proof. intros topic X. simpl. by rewrite lookup_empty. Qed.

End Topics.

Section TopicProperties.
Import WebSocketManager.

(** The counters [total_connections], [messages_sent] and [failed_sends]
    only accumulate: no operation and no background pass, from any state,
    makes one of them smaller. *)
Theorem counters_never_decrease (E : Env) (cs : list Call) (s : t) :
  Stats.total_connections (stats s)
    ≤ Stats.total_connections (stats (run E s cs))
  ∧ Stats.messages_sent (stats s) ≤ Stats.messages_sent (stats (run E s cs))
  ∧ Stats.failed_sends (stats s) ≤ Stats.failed_sends (stats (run E s cs)).
Proof.
  apply (preserved_run E
           (λ s', Stats.total_connections (stats s)
                    ≤ Stats.total_connections (stats s')
                  ∧ Stats.messages_sent (stats s)
                    ≤ Stats.messages_sent (stats s')
                  ∧ Stats.failed_sends (stats s)
                    ≤ Stats.failed_sends (stats s')));
    try done; simpl.
  - intros l m s'. by rewrite conn_send_stats.
  - intros l s'. by rewrite conn_ping_eq.
  - intros s' (? & ? & ?). repeat split; lia.
  - intros s' (? & ? & ?). repeat split; lia.
  - intros c s'.
    by rewrite disconnect_total_connections, disconnect_messages_sent,
      disconnect_failed_sends.
  - intros ws cid now s' (? & ? & ?). repeat split; lia.
Qed.

(** What [get_stats] reports in a state that the manager reaches from its
    construction: the topics are listed once each, a topic is listed exactly
    when it has a subscriber, the number reported for a listed topic is the
    number of its subscribers, which is at least one, and the reported
    number of active connections is the number of entries of
    [connections]. *)
Theorem stats_report_lists_subscribed_topics (E : Env) (cs : list Call)
    (topic : string) :
  let s := run E init cs in
  let r := get_stats E s in
  NoDup (topics r)
  ∧ (topic ∈ topics r ↔ subscribers s topic ≠ ∅)
  ∧ topic_subscribers r !! topic
    = (if decide (topic ∈ topics r) then Some (size (subscribers s topic))
       else None)
  ∧ (topic ∈ topics r → 0 < size (subscribers s topic))
  ∧ Stats.active_connections (counters r) = size (active_connections s).
Proof.
  intros s r.
  assert (no_empty_topic s) as Hne
    by apply no_empty_topic_run, no_empty_topic_init.
  assert (topic ∈ topics r ↔ is_Some (subscriptions s !! topic)) as Hin.
  { unfold r, get_stats. simpl.
    rewrite iter_order_perm, elem_of_elements. apply elem_of_dom. }
  assert (is_Some (subscriptions s !! topic) ↔ subscribers s topic ≠ ∅) as Hsub.
  { unfold subscribers. split.
    - intros [X HX]. rewrite HX. simpl. by apply (Hne topic).
    - destruct (subscriptions s !! topic); [by eexists|done]. }
  split; [|split; [|split; [|split]]].
  - unfold r, get_stats. simpl. rewrite iter_order_perm. apply NoDup_elements.
  - etrans; [apply Hin|apply Hsub].
  - unfold r at 1, get_stats, subscribers. simpl. rewrite lookup_fmap.
    destruct (subscriptions s !! topic) as [X|] eqn:HX; simpl.
    + rewrite decide_True; [done|]. apply Hin. by eexists.
    + rewrite decide_False; [done|].
      intros Ht. by destruct (proj1 Hin Ht) as [? ?].
  - intros Hsize%Hin%Hsub.
    destruct (decide (size (subscribers s topic) = 0)) as [H0|]; [|lia].
    by apply size_empty_inv, leibniz_equiv in H0.
  - unfold r, get_stats. simpl. apply (counts_agree_run E cs init). reflexivity.
Qed.

Lemma stats_report_lists_subscribed_topics_witness :
  0 < size (subscribers (run env_ok init [Connect 7 (Some "alice");
                                           Subscribe "alice" "news"]) "news").
Proof.
  apply (stats_report_lists_subscribed_topics env_ok
           [Connect 7 (Some "alice"); Subscribe "alice" "news"] "news").
  apply (bool_decide_unpack _). vm_compute. exact I.
Defined.

(** [subscribe] and [unsubscribe] are idempotent on the topic index: a
    second call for the same client and topic leaves the index of the first
    one. *)
Theorem subscribe_unsubscribe_idempotent (E : Env) (c topic : string) (s : t) :
  subscriptions (subscribe E c topic (subscribe E c topic s))
  = subscriptions (subscribe E c topic s)
  ∧ subscriptions (unsubscribe c topic (unsubscribe c topic s))
    = subscriptions (unsubscribe c topic s).
Proof.
  split.
  - rewrite !subscribe_subscriptions. apply map_eq. intros topic'.
    rewrite !add_subscriber_entry. case_decide; [|done].
    rewrite decide_True by done. simpl. f_equal. set_solver.
  - simpl. apply map_eq. intros topic'.
    rewrite !remove_subscriber_entry. case_decide; [|done].
    rewrite decide_True by done.
    destruct (subscriptions s !! topic) as [X|]; simpl; [|done].
    unfold pruned. destruct (decide (X ∖ {[c]} = ∅)) as [He|He]; simpl; [done|].
    replace (X ∖ {[c]} ∖ {[c]}) with (X ∖ {[c]}) by set_solver.
    by rewrite decide_False.
Qed.

(** A [subscribe] followed by the [unsubscribe] of the same client from the
    same topic gives back the topic index, provided the client was not a
    subscriber before and the index had no empty entry; in particular a
    topic that the client was alone to subscribe to is removed again. *)
Theorem subscribe_then_unsubscribe_restores_index (E : Env)
    (c topic : string) (s : t) :
  no_empty_topic s →
  c ∉ subscribers s topic →
  subscriptions (unsubscribe c topic (subscribe E c topic s))
  = subscriptions s.
Proof.
  intros Hne Hc. rewrite unsubscribe_subscriptions, subscribe_subscriptions.
  apply map_eq. intros topic'.
  rewrite remove_subscriber_entry. case_decide as Heq;
    [|by rewrite add_subscriber_entry, decide_False].
  subst topic'. rewrite add_subscriber_entry, decide_True by done. simpl.
  unfold subscribers in Hc. unfold pruned.
  destruct (subscriptions s !! topic) as [X|] eqn:HX; simpl in *.
  - replace ((X ∪ {[c]}) ∖ {[c]}) with X by set_solver.
    rewrite decide_False; [done|]. by apply (Hne topic).
  - rewrite decide_True; [done|]. set_solver.
Qed.

Lemma subscribe_then_unsubscribe_restores_index_witness :
  subscriptions (unsubscribe "alice" "news"
                   (subscribe env_ok "alice" "news" state_one))
  = subscriptions state_one.
Proof.
  apply (subscribe_then_unsubscribe_restores_index env_ok "alice" "news"
           state_one).
  - apply no_empty_topic_run, no_empty_topic_init.
  - assert (subscribers state_one "news" = ∅) as ->
      by (vm_compute; reflexivity).
    set_solver.
Defined.

(** [subscribe] is best effort: whether or not the client is connected and
    whatever happens to the confirmation, the client is a subscriber of the
    topic afterwards, the other topics are as before, and the connections,
    the offline queue and the counters (also [messages_sent]) are as
    before. *)
Theorem subscribe_is_best_effort (E : Env) (c topic : string) (s : t) :
  subscribers (subscribe E c topic s) topic = subscribers s topic ∪ {[c]}
  ∧ delete topic (subscriptions (subscribe E c topic s))
    = delete topic (subscriptions s)
  ∧ active_connections (subscribe E c topic s) = active_connections s
  ∧ message_queue (subscribe E c topic s) = message_queue s
  ∧ stats (subscribe E c topic s) = stats s.
Proof.
  split; [|split].
  - unfold subscribers. rewrite subscribe_subscriptions.
    by rewrite add_subscriber_entry, decide_True.
  - rewrite subscribe_subscriptions. apply map_eq. intros topic'.
    destruct (decide (topic = topic')) as [<-|Hne].
    + by rewrite !lookup_delete_eq.
    + rewrite !lookup_delete_ne by done.
      by rewrite add_subscriber_entry, decide_False.
  - unfold subscribe. simpl.
    destruct (active_connections s !! c); [|done].
    by rewrite conn_send_active_connections, conn_send_message_queue,
      conn_send_stats.
Qed.

End TopicProperties.

(** ** Further properties: connect and the lifetime of a Connection *)

Section Lifetime.
Context (E : Env).
Import WebSocketManager.
Implicit Types (s : t) (m : message) (l : nat).

Lemma flush_subscriptions l ms s :
  subscriptions (flush E l ms s) = subscriptions s.
Proof.
  apply (preserved_flush E (λ s', subscriptions s' = subscriptions s)); [|done].
  intros. by rewrite conn_send_subscriptions.
Qed.

Lemma flush_stats l ms s : stats (flush E l ms s) = stats s.
Proof.
  apply (preserved_flush E (λ s', stats s' = stats s)); [|done].
  intros. by rewrite conn_send_stats.
Qed.

Lemma flush_length l ms s : length (objs (flush E l ms s)) = length (objs s).
Proof.
  apply (preserved_flush E (λ s', length (objs s') = length (objs s))); [|done].
  intros. by rewrite conn_send_length.
Qed.

(** What an accepted [connect] does to the dicts and to the counters. *)
Lemma connect_accepted_frame ws arg s :
  accept E (trace s) ws = true →
  let c := assigned_id E (trace s ++ [EvAccept ws true]) arg in
  let s' := (connect E ws arg s).2 in
  active_connections s' = <[c := length (objs s)]> (active_connections s)
  ∧ subscriptions s' = subscriptions s
  ∧ message_queue s' = delete c (message_queue s)
  ∧ length (objs s') = S (length (objs s))
  ∧ stats s'
    = Stats.mk (S (Stats.total_connections (stats s)))
               (size (<[c := length (objs s)]> (active_connections s)))
               (Stats.messages_sent (stats s)) (Stats.failed_sends (stats s)).
Proof.
  intros Hacc c s'. subst s'. unfold connect. rewrite Hacc. simpl. fold c.
  rewrite conn_send_message_queue. simpl.
  destruct (message_queue s !! c) as [ms|] eqn:Hms; simpl.
  - rewrite flush_active_connections, flush_subscriptions, flush_stats,
      flush_length, conn_send_active_connections, conn_send_subscriptions,
      conn_send_stats, conn_send_length.
    simpl. rewrite length_app. simpl. repeat split; try done. lia.
  - rewrite conn_send_active_connections, conn_send_subscriptions,
      conn_send_stats, conn_send_length, conn_send_message_queue.
    simpl. rewrite length_app, delete_id by done. simpl.
    repeat split; try done. lia.
Qed.

(** A [connect] whose channel cannot be accepted only adds to the trace. *)
Lemma connect_rejected ws arg s :
  accept E (trace s) ws = false →
  connect E ws arg s = (Raise, emit (EvAccept ws false) s).
Proof. intros Hacc. unfold connect. by rewrite Hacc. Qed.

End Lifetime.

Section LifetimeProperties.
Import WebSocketManager.

(** An accepted [connect] counts one more connection in
    [total_connections]. The number of entries of [connections], and with
    it the counter [active_connections], grows by one when the client id had
    no Connection and stays when it had one, whose entry is then replaced;
    the entries of the other client ids stay. The topic index stays, so a
    client id that reconnects keeps its subscriptions, and neither the
    welcome message nor the flushed messages are counted in
    [messages_sent] or [failed_sends]. *)
Theorem connect_counts_one_connection (E : Env) (ws : nat)
    (arg : option string) (s : t) :
  accept E (trace s) ws = true →
  let c := assigned_id E (trace s ++ [EvAccept ws true]) arg in
  let s' := (connect E ws arg s).2 in
  Stats.total_connections (stats s') = S (Stats.total_connections (stats s))
  ∧ size (active_connections s')
    = match active_connections s !! c with
      | Some _ => size (active_connections s)
      | None => S (size (active_connections s))
      end
  ∧ Stats.active_connections (stats s') = size (active_connections s')
  ∧ delete c (active_connections s') = delete c (active_connections s)
  ∧ subscriptions s' = subscriptions s
  ∧ Stats.messages_sent (stats s') = Stats.messages_sent (stats s)
  ∧ Stats.failed_sends (stats s') = Stats.failed_sends (stats s).
Proof.
  intros Hacc c s'.
  destruct (connect_accepted_frame E ws arg s Hacc)
    as (Hc & Hsub & _ & _ & Hst).
  fold c s' in Hc, Hsub, Hst. rewrite Hc, Hst. simpl.
  repeat split; try done.
  - rewrite map_size_insert. by destruct (active_connections s !! c).
  - by rewrite delete_insert_eq.
Qed.

Lemma connect_counts_one_connection_witness :
  Stats.total_connections (stats (connect env_ok 7 (Some "alice") state_one).2)
  = S (Stats.total_connections (stats state_one)).
Proof.
  apply (connect_counts_one_connection env_ok 7 (Some "alice") state_one).
  reflexivity.
Defined.

(** A [connect] of a client id without Connection followed at once by its
    [disconnect] gives back [connections] and, when the counter agreed with
    it before, the counter [active_connections]; the client is then a
    subscriber of no topic. *)
Theorem connect_then_disconnect_restores (E : Env) (ws : nat)
    (arg : option string) (s : t) (topic : string) :
  accept E (trace s) ws = true →
  let c := assigned_id E (trace s ++ [EvAccept ws true]) arg in
  let s' := disconnect c (connect E ws arg s).2 in
  active_connections s !! c = None →
  counts_agree s →
  active_connections s' = active_connections s
  ∧ Stats.active_connections (stats s') = Stats.active_connections (stats s)
  ∧ Stats.total_connections (stats s') = S (Stats.total_connections (stats s))
  ∧ subscribers s' topic = subscribers s topic ∖ {[c]}.
Proof.
  intros Hacc c s' Hc Hagree.
  destruct (connect_accepted_frame E ws arg s Hacc)
    as (Hconn & Hsub & _ & _ & Hst).
  fold c in Hconn, Hsub, Hst.
  assert (active_connections s' = active_connections s) as Hback.
  { unfold s'. rewrite disconnect_active_connections, Hconn.
    by rewrite delete_insert_eq, delete_id. }
  split; [done|]. split; [|split].
  - unfold s', disconnect. rewrite Hconn, lookup_insert_eq. simpl.
    rewrite Hconn, delete_insert_eq, delete_id by done. by rewrite Hagree.
  - unfold s'. rewrite disconnect_total_connections, Hst. done.
  - unfold s'. rewrite disconnect_subscribers.
    + unfold subscribers. by rewrite Hsub.
    + rewrite Hconn, lookup_insert_eq. by eexists.
Qed.

Lemma connect_then_disconnect_restores_witness :
  active_connections
    (disconnect "bob" (connect env_ok 9 (Some "bob") state_one).2)
  = active_connections state_one.
Proof.
  apply (connect_then_disconnect_restores env_ok 9 (Some "bob") state_one "news").
  - reflexivity.
  - reflexivity.
  - apply (counts_agree_run env_ok [Connect 7 (Some "alice")] init). reflexivity.
Defined.

End LifetimeProperties.

(** ** Further properties: delivery, the counters and the offline queue *)

Section Delivery.
Context (E : Env).
Import WebSocketManager.
Implicit Types (s : t) (m : message) (l : nat).

Lemma outcome_count_app ok evs1 evs2 :
  outcome_count ok (evs1 ++ evs2)
  = outcome_count ok evs1 + outcome_count ok evs2.
Proof. unfold outcome_count. by rewrite omap_app, length_app. Qed.

Lemma accounted_refl s : accounted s s.
Proof.
  exists []. rewrite app_nil_r. unfold outcome_count. simpl.
  repeat split; lia.
Qed.

Lemma accounted_trans s1 s2 s3 :
  accounted s1 s2 → accounted s2 s3 → accounted s1 s3.
Proof.
  intros (evs1 & Ht1 & Hs1 & Hf1) (evs2 & Ht2 & Hs2 & Hf2).
  exists (evs1 ++ evs2). rewrite !outcome_count_app, Ht2, Ht1, app_assoc.
  split; [done|]. split; lia.
Qed.

Lemma accounted_disconnect c s : accounted s (disconnect c s).
Proof.
  exists (match active_connections s !! c with
          | Some _ => [EvInfo (Disconnected c)]
          | None => []
          end).
  rewrite disconnect_trace, disconnect_messages_sent, disconnect_failed_sends.
  unfold outcome_count.
  destruct (active_connections s !! c); simpl; repeat split; lia.
Qed.

(** A send and the update of the counter that follows it. *)
Lemma accounted_send l m s :
  accounted s (if (conn_send E l m s).1
               then incr_messages_sent (conn_send E l m s).2
               else incr_failed_sends (conn_send E l m s).2).
Proof.
  exists [EvSend l m (ConnectionManager.is_active (objs s !!! l))
                 (conn_send E l m s).1].
  pose proof (conn_send_trace E l m s) as Htr.
  pose proof (conn_send_stats E l m s) as Hst.
  unfold outcome_count.
  destruct (conn_send E l m s) as [[] s1]; simpl in *;
    rewrite Htr, Hst; repeat split; simpl; lia.
Qed.

Lemma accounted_fanout_one s0 m c l acc :
  accounted s0 acc.1 → accounted s0 (fanout_one E m c l acc).1.
Proof.
  destruct acc as [s dc]. simpl. intros Hacc.
  eapply accounted_trans; [done|]. unfold fanout_one.
  destruct (ConnectionManager.is_active (objs s !!! l));
    [|apply accounted_refl].
  pose proof (accounted_send l m s) as Hsend.
  destruct (conn_send E l m s) as [[] s1]; simpl in *; done.
Qed.

Lemma queue_kept_refl s : queue_kept s s.
Proof. by split. Qed.

Lemma queue_kept_conn_send s0 l m s :
  queue_kept s0 s → queue_kept s0 (conn_send E l m s).2.
Proof.
  unfold queue_kept.
  by rewrite conn_send_message_queue, conn_send_active_connections.
Qed.

Lemma queue_kept_conn_ping s0 l s :
  queue_kept s0 s → queue_kept s0 (conn_ping E l s).2.
Proof. unfold queue_kept. by rewrite conn_ping_eq. Qed.

Lemma queue_kept_disconnect s0 c s :
  queue_kept s0 s → queue_kept s0 (disconnect c s).
Proof.
  unfold queue_kept.
  rewrite disconnect_message_queue, disconnect_active_connections.
  intros [Hq Hc]. split; [done|].
  intros c' Hc'. apply lookup_delete_None. right. by apply Hc.
Qed.

(** Every call but [connect], a [send_personal_message] to a client id
    without Connection and the cleanup pass keeps the queue and connects
    nobody. *)
Lemma queue_kept_step c s :
  match c with
  | Connect _ _ | Cleanup => False
  | SendPersonalMessage cid _ => is_Some (active_connections s !! cid)
  | _ => True
  end →
  queue_kept s (step E s c).
Proof.
  pose proof (queue_kept_conn_send s) as Hsend.
  pose proof (queue_kept_conn_ping s) as Hping.
  pose proof (queue_kept_disconnect s) as Hdisc.
  pose proof (queue_kept_refl s) as Hrefl.
  destruct c as [ws a|cid|cid topic|cid topic|cid m|topic m|m| |];
    simpl; intros Hc.
  - done.
  - by apply Hdisc.
  - by apply (preserved_subscribe E (queue_kept s)).
  - done.
  - destruct Hc as [l Hl]. unfold send_personal_message. rewrite Hl.
    destruct (ConnectionManager.is_active (objs s !!! l));
      [|by apply Hdisc].
    pose proof (Hsend l m s Hrefl) as Hs1.
    destruct (conn_send E l m s) as [[] s1]; simpl in *; [done|].
    by apply (Hdisc cid s1).
  - by apply (preserved_broadcast_to_topic E (queue_kept s)).
  - by apply (preserved_broadcast_to_all E (queue_kept s)).
  - by apply (preserved_health_check_pass E (queue_kept s)).
  - done.
Qed.

End Delivery.

Section DeliveryProperties.
Import WebSocketManager.

(** In a targeted send and in the two broadcasts every send is counted
    once: [messages_sent] grows by the number of sends that returned true
    and [failed_sends] by the number of sends that returned false. *)
Theorem every_send_is_counted_once (E : Env) (c topic : string) (m : message)
    (s : t) :
  accounted s (send_personal_message E c m s)
  ∧ accounted s (broadcast_to_topic E topic m s)
  ∧ accounted s (broadcast_to_all E m s).
Proof.
  split; [|split].
  - unfold send_personal_message.
    destruct (active_connections s !! c) as [l|].
    2: { exists []. simpl. rewrite app_nil_r. unfold outcome_count. simpl.
         split; [done|]. split; lia. }
    destruct (ConnectionManager.is_active (objs s !!! l));
      [|apply accounted_disconnect].
    pose proof (accounted_send E l m s) as Hsend.
    destruct (conn_send E l m s) as [[] s1]; simpl in *; [done|].
    destruct Hsend as (evs & Htr & Hs & Hf).
    destruct (accounted_disconnect c s1) as (evs' & Htr' & Hs' & Hf').
    exists (evs ++ evs'). rewrite !outcome_count_app. simpl in *.
    rewrite Htr', Hs', Hf', Htr, app_assoc. split; [done|]. split; lia.
  - unfold broadcast_to_topic.
    destruct (subscriptions s !! topic) as [X|]; [|apply accounted_refl].
    match goal with |- context [foldl ?f ?a ?xs] =>
      assert (accounted s (foldl f a xs).1) as Hf;
      [apply (preserved_foldl (accounted s)); [|apply accounted_refl]|
       destruct (foldl f a xs) as [s1 dc]]
    end.
    + intros acc k Hacc. unfold topic_step.
      destruct (active_connections acc.1 !! k); [|done].
      by apply accounted_fanout_one.
    + apply (preserved_disconnect_all (accounted s)); [|done].
      intros d s' Hs'. eapply accounted_trans; [done|apply accounted_disconnect].
  - unfold broadcast_to_all.
    match goal with |- context [foldl ?f ?a ?xs] =>
      assert (accounted s (foldl f a xs).1) as Hf;
      [apply (preserved_foldl (accounted s)); [|apply accounted_refl]|
       destruct (foldl f a xs) as [s1 dc]]
    end.
    + intros acc k Hacc. by apply accounted_fanout_one.
    + apply (preserved_disconnect_all (accounted s)); [|done].
      intros d s' Hs'. eapply accounted_trans; [done|apply accounted_disconnect].
Qed.

(** A message for a client id that has a Connection is never queued, also
    when its delivery fails. A message for a client id without Connection
    is put at the end of the queue of that id, and nothing else changes:
    the other queues, the connections, the topic index, the counters, the
    Connection objects and the trace stay. *)
Theorem send_personal_message_queues_only_offline (E : Env) (c : string)
    (m : message) (s : t) :
  (is_Some (active_connections s !! c) →
   message_queue (send_personal_message E c m s) = message_queue s)
  ∧ (active_connections s !! c = None →
     send_personal_message E c m s
     = set_message_queue
         (<[c := default [] (message_queue s !! c) ++ [m]]> (message_queue s))
         s).
Proof.
  split.
  - intros Hc.
    apply (queue_kept_step E (SendPersonalMessage c m) s Hc).
  - intros Hc. unfold send_personal_message. rewrite Hc. f_equal.
    apply map_eq. intros c'. rewrite enqueue_lookup.
    case_decide as Heq; [subst; by rewrite lookup_insert_eq|].
    by rewrite lookup_insert_ne.
Qed.

Lemma send_personal_message_queues_only_offline_witness :
  message_queue (send_personal_message (env_bad 7) "alice" hello state_one)
  = message_queue state_one.
Proof.
  apply (proj1 (send_personal_message_queues_only_offline (env_bad 7) "alice"
                  hello state_one)).
  exists 0. reflexivity.
Defined.

(** A message for a client with an active Connection is either delivered,
    and then only [messages_sent] grows, by one, while the connections, the
    topic index and the Connection objects stay; or its send fails, and
    then the client is disconnected: it leaves [connections] and every
    topic, and only [failed_sends] grows, by one. *)
Theorem send_personal_message_delivers_or_disconnects (E : Env) (c : string)
    (m : message) (s : t) (l : nat) (topic : string) :
  active_connections s !! c = Some l →
  ConnectionManager.is_active (objs s !!! l) = true →
  let s' := send_personal_message E c m s in
  if send_ok E (trace s) (objs s !!! l) m
  then objs s' = objs s
       ∧ active_connections s' = active_connections s
       ∧ subscriptions s' = subscriptions s
       ∧ Stats.messages_sent (stats s') = S (Stats.messages_sent (stats s))
       ∧ Stats.failed_sends (stats s') = Stats.failed_sends (stats s)
  else active_connections s' = delete c (active_connections s)
       ∧ subscribers s' topic = subscribers s topic ∖ {[c]}
       ∧ Stats.messages_sent (stats s') = Stats.messages_sent (stats s)
       ∧ Stats.failed_sends (stats s') = S (Stats.failed_sends (stats s)).
Proof.
  intros Hc Ha s'. subst s'. unfold send_personal_message. rewrite Hc, Ha.
  pose proof (conn_send_eq E l m s) as Heq. simpl in Heq.
  pose proof (conn_send_succeeded E l m s) as Hok.
  pose proof (conn_send_active_connections E l m s) as Hconn.
  pose proof (conn_send_subscriptions E l m s) as Hsub.
  pose proof (conn_send_stats E l m s) as Hst.
  destruct (conn_send E l m s) as [ok s1]. simpl in *.
  injection Heq as Hokeq _. rewrite <- Hokeq.
  destruct ok; simpl.
  - rewrite Hok, Hconn, Hsub, Hst by done. done.
  - change (subscribers (incr_failed_sends (disconnect c s1)) topic)
      with (subscribers (disconnect c s1) topic).
    rewrite disconnect_active_connections, disconnect_messages_sent,
      disconnect_failed_sends, Hconn, Hst.
    rewrite disconnect_subscribers by (rewrite Hconn, Hc; by eexists).
    unfold subscribers. by rewrite Hsub.
Qed.

Lemma send_personal_message_delivers_or_disconnects_witness :
  active_connections (send_personal_message (env_bad 7) "alice" hello state_one)
  = delete "alice" (active_connections state_one).
Proof.
  apply (send_personal_message_delivers_or_disconnects (env_bad 7) "alice"
           hello state_one 0 "news"); reflexivity.
Defined.

End DeliveryProperties.

(** ** Further properties: the broadcasts *)

Section Fanout.
Context (E : Env).
Import WebSocketManager.
Implicit Types (s : t) (m : message) (l : nat) (ks : list string).

Lemma sends_to_app l evs1 evs2 :
  sends_to l (evs1 ++ evs2) = sends_to l evs1 ++ sends_to l evs2.
Proof. unfold sends_to. apply omap_app. Qed.

Lemma sends_to_disconnects l evs : Forall is_disconnect evs → sends_to l evs = [].
Proof.
  induction 1 as [|e evs He _ IH]; [done|].
  destruct e; done.
Qed.



(** Which messages the fan-out loop hands to a Connection object: the
    message, once, when the object belongs to a subscriber of the snapshot
    and is active, and nothing when it belongs to none of them or is
    inactive. *)
Lemma fanout_sends m s ks :
  well_formed s → NoDup ks →
  ∃ evs,
    trace (foldl (topic_step E m) (s, []) ks).1 = trace s ++ evs
    ∧ ∀ l,
        (∀ c, c ∈ ks → active_connections s !! c = Some l →
              ConnectionManager.is_active (objs s !!! l) = true →
              sends_to l evs = [m])
        ∧ ((∀ c, c ∈ ks → active_connections s !! c = Some l →
                 ConnectionManager.is_active (objs s !!! l) = false) →
           sends_to l evs = []).
Proof.
  intros Hwf. induction ks as [|k ks IH] using rev_ind; intros Hnd.
  { exists []. simpl. rewrite app_nil_r. split; [done|].
    intros l. split; [set_solver|done]. }
  apply NoDup_app in Hnd as (Hnd & Hk & _).
  assert (k ∉ ks) as Hkin by (intros Hin; apply (Hk k Hin); set_solver).
  destruct (IH Hnd) as (evs & Htr & Hsends). clear IH.
  pose proof (fanout_inv_foldl E m s ks Hwf Hnd) as Hinv.
  rewrite foldl_snoc.
  destruct (foldl (topic_step E m) (s, []) ks) as [s1 dc].
  destruct Hinv as (Hc & _ & _ & Hobj & _). simpl in *.
  unfold topic_step. simpl. rewrite Hc.
  destruct (active_connections s !! k) as [lk|] eqn:Hklk.
  2: { exists evs. split; [done|]. intros l.
       destruct (Hsends l) as [Hi Hii]. split.
       - intros c [Hin| ->%list_elem_of_singleton]%elem_of_app Hcl Hact;
           [by apply (Hi c)|congruence].
       - intros Hall. apply Hii. intros c Hin. apply Hall. set_solver. }
  destruct Hwf as [_ Hinj].
  assert (∀ c, c ∈ ks → active_connections s !! c ≠ Some lk) as Hfresh.
  { intros c Hin Hcl. apply Hkin. by rewrite <- (Hinj c k lk Hcl Hklk). }
  unfold fanout_one. rewrite (Hobj lk Hfresh).
  destruct (ConnectionManager.is_active (objs s !!! lk)) eqn:Hact.
  - pose proof (conn_send_trace E lk m s1) as Htr'.
    rewrite (Hobj lk Hfresh), Hact in Htr'.
    assert (∃ ok, trace (if (conn_send E lk m s1).1
                         then (incr_messages_sent (conn_send E lk m s1).2, dc)
                         else (incr_failed_sends (conn_send E lk m s1).2,
                               dc ++ [k])).1
                  = trace s ++ evs ++ [EvSend lk m true ok]) as [ok Hnew].
    { exists (conn_send E lk m s1).1.
      destruct (conn_send E lk m s1) as [[] s1']; simpl in *;
        by rewrite Htr', Htr, <- app_assoc. }
    destruct (conn_send E lk m s1) as [ok' s1']. simpl in *.
    exists (evs ++ [EvSend lk m true ok]). split; [by destruct ok'|].
    intros l. destruct (Hsends l) as [Hi Hii].
    rewrite sends_to_app. unfold sends_to at 2 4. simpl. split.
    + intros c [Hin| ->%list_elem_of_singleton]%elem_of_app Hcl Hal.
      * rewrite decide_False, app_nil_r; [by apply (Hi c)|].
        intros ->. by apply (Hfresh c).
      * assert (l = lk) as -> by congruence.
        rewrite decide_True by done. rewrite Hii; [done|].
        intros c Hin Hcl'. by destruct (Hfresh c).
    + intros Hall. destruct (decide (lk = l)) as [->|Hne].
      * rewrite (Hall k) in Hact by (done || set_solver). done.
      * rewrite app_nil_r. apply Hii. intros c Hin. apply Hall. set_solver.
  - exists evs. split; [done|]. intros l.
    destruct (Hsends l) as [Hi Hii]. split.
    + intros c [Hin| ->%list_elem_of_singleton]%elem_of_app Hcl Hal;
        [by apply (Hi c)|].
      assert (l = lk) as -> by congruence. congruence.
    + intros Hall. apply Hii. intros c Hin. apply Hall. set_solver.
Qed.

(** The same for a whole [broadcast_to_topic]. *)
Lemma broadcast_to_topic_sends topic m s X :
  well_formed s →
  subscriptions s !! topic = Some X →
  ∃ evs,
    trace (broadcast_to_topic E topic m s) = trace s ++ evs
    ∧ ∀ l,
        (∀ c, c ∈ X → active_connections s !! c = Some l →
              ConnectionManager.is_active (objs s !!! l) = true →
              sends_to l evs = [<["timestamp" := utcnow E (trace s)]> m])
        ∧ ((∀ c, c ∈ X → active_connections s !! c = Some l →
                 ConnectionManager.is_active (objs s !!! l) = false) →
           sends_to l evs = []).
Proof.
  intros Hwf HX. unfold broadcast_to_topic. rewrite HX.
  set (m' := <["timestamp" := utcnow E (trace s)]> m).
  assert (NoDup (iter_order E (trace s) X)) as Hnd.
  { rewrite iter_order_perm. apply NoDup_elements. }
  assert (∀ c, c ∈ iter_order E (trace s) X ↔ c ∈ X) as Hmem.
  { intros c. rewrite iter_order_perm. apply elem_of_elements. }
  destruct (fanout_sends m' s _ Hwf Hnd) as (evs & Htr & Hsends).
  destruct (foldl (topic_step E m') (s, []) (iter_order E (trace s) X))
    as [s1 dc]. simpl in *.
  destruct (disconnect_all_trace dc s1) as (discs & Htr' & Hdiscs).
  exists (evs ++ discs). rewrite Htr', Htr, <- app_assoc. split; [done|].
  intros l. destruct (Hsends l) as [Hi Hii].
  rewrite sends_to_app, (sends_to_disconnects l discs Hdiscs), app_nil_r.
  split.
  - intros c Hin. apply Hi. by apply Hmem.
  - intros Hall. apply Hii. intros c Hin. apply Hall. by apply Hmem.
Qed.

End Fanout.

Section BroadcastProperties.
Import WebSocketManager.

Lemma broadcast_to_topic_served (E : Env) (topic : string) (m : message)
    (s : t) (c : string) (l : nat) :
  well_formed s → no_empty_topic s →
  served_once E topic m s (broadcast_to_topic E topic m s) c l.
Proof.
  intros Hwf Hne. split.
  - unfold subscribers, broadcast_to_topic.
    destruct (subscriptions s !! topic) as [X|] eqn:HX; [|done].
    simpl. intros ->. by destruct (Hne topic ∅).
  - destruct (subscriptions s !! topic) as [X|] eqn:HX.
    + destruct (broadcast_to_topic_sends E topic m s X Hwf HX)
        as (evs & Htr & Hsends).
      exists evs. split; [done|]. unfold subscribers. rewrite HX. simpl.
      destruct (Hsends l) as [Hi Hii]. split.
      * intros Hin Hcl Hact. by apply (Hi c).
      * intros Hnin Hcl. apply Hii. intros c' Hin' Hcl'.
        destruct Hwf as [_ Hinj]. by rewrite (Hinj c c' l Hcl Hcl') in Hnin.
    + exists []. unfold broadcast_to_topic, subscribers. rewrite HX. simpl.
      rewrite app_nil_r. split; [done|]. split; [set_solver|done].
Qed.

(** In a state that the manager reaches from its construction, a
    [broadcast_to_topic] does nothing at all when the topic has no
    subscriber; otherwise it hands the stamped message exactly once to the
    Connection of each subscriber whose Connection is active, and nothing to
    the Connection of a client that is no subscriber of the topic. *)
Theorem broadcast_to_topic_sends_exactly_once (E : Env) (cs : list Call)
    (topic : string) (m : message) (c : string) (l : nat) :
  served_once E topic m (run E init cs)
              (broadcast_to_topic E topic m (run E init cs)) c l.
Proof.
  apply broadcast_to_topic_served.
  - apply well_formed_run, well_formed_init.
  - apply no_empty_topic_run, no_empty_topic_init.
Qed.

Lemma broadcast_to_topic_sends_exactly_once_witness :
  ∃ evs,
    trace (broadcast_to_topic (env_drop 8) "news" news state_two)
    = trace state_two ++ evs
    ∧ sends_to 0 evs
      = [<["timestamp" := utcnow (env_drop 8) (trace state_two)]> news].
Proof.
  destruct (broadcast_to_topic_sends_exactly_once (env_drop 8)
              [Connect 7 (Some "alice"); Connect 8 (Some "bob");
               Subscribe "alice" "news"; Subscribe "bob" "news"]
              "news" news "alice" 0) as (_ & evs & Htr & Hin & _).
  exists evs. split; [exact Htr|]. apply Hin.
  - apply (bool_decide_unpack _). vm_compute. exact I.
  - vm_compute. reflexivity.
  - vm_compute. reflexivity.
Defined.

(** The three named broadcasts go to the topics [market_data], [news] and
    [signals]: in a state that the manager reaches from its construction
    each of them hands its message, with the type, the payload, the source
    and the timestamp, exactly once to each subscriber of its topic with an
    active Connection, hands nothing to a client that is no subscriber of
    that topic, and changes nothing when the topic has no subscriber. *)
Theorem named_broadcasts_serve_their_topic (E : Env) (cs : list Call)
    (data : string) (c : string) (l : nat) :
  let s := run E init cs in
  served_once E "market_data" (market_message data) s
              (broadcast_market_update E data s) c l
  ∧ served_once E "news" (news_message data) s
                (broadcast_news_update E data s) c l
  ∧ served_once E "signals" (signal_message data) s
                (broadcast_ai_signal E data s) c l.
Proof.
  intros s.
  assert (well_formed s) as Hwf by apply well_formed_run, well_formed_init.
  assert (no_empty_topic s) as Hne
    by apply no_empty_topic_run, no_empty_topic_init.
  repeat split; by apply broadcast_to_topic_served.
Qed.

Lemma named_broadcasts_serve_their_topic_witness :
  broadcast_market_update env_ok "{}" state_one = state_one.
Proof.
  apply (proj1 (proj1 (named_broadcasts_serve_their_topic env_ok
                         [Connect 7 (Some "alice")] "{}" "alice" 0))).
  vm_compute. reflexivity.
Defined.



End BroadcastProperties.

(** ** Further properties: the health check *)

Section HealthCheck.
Context (E : Env).
Import WebSocketManager.
Implicit Types (s : t) (l : nat).

Local Abbreviation health_step :=
  (λ (acc : t * list string) (cl : string * nat),
     let '(ok, s1) := conn_ping E cl.2 acc.1 in
     if ok then (s1, acc.2) else (s1, acc.2 ++ [cl.1])).






End HealthCheck.

Section HealthCheckProperties.
Import WebSocketManager.



End HealthCheckProperties.

(** ** Further properties: the endpoint and the background tasks *)

Section Session.
Context (E : Env) (system_status : list Event → result string).
Import WebSocketManager.
Implicit Types (s : t) (m : message) (l : nat).

(** A send over a healthy channel on an active Connection succeeds and
    leaves the Connection objects as they are. *)
Lemma conn_send_healthy s c l ws m :
  healthy E ws → attached s c l ws →
  (conn_send E l m s).1 = true ∧ objs (conn_send E l m s).2 = objs s.
Proof.
  intros Hws (Hcl & Hl & Hw & Ha).
  assert ((conn_send E l m s).1 = true) as Hok.
  { rewrite conn_send_eq. simpl. unfold send_ok. rewrite Ha, Hw.
    destruct (Hws (trace s) m) as [-> ->]. by rewrite bool_decide_eq_true_2. }
  split; [done|]. by apply conn_send_succeeded.
Qed.

Lemma attached_conn_send s c l ws m :
  healthy E ws → attached s c l ws → attached (conn_send E l m s).2 c l ws.
Proof.
  intros Hws Hat. destruct (conn_send_healthy s c l ws m Hws Hat) as [_ Hobjs].
  unfold attached. by rewrite conn_send_active_connections, Hobjs.
Qed.

Lemma subscribe_stats c topic s : stats (subscribe E c topic s) = stats s.
Proof.
  unfold subscribe. simpl.
  destruct (active_connections s !! c); [|done]. by rewrite conn_send_stats.
Qed.

Lemma attached_subscribe s c l ws topic :
  healthy E ws → attached s c l ws → attached (subscribe E c topic s) c l ws.
Proof.
  intros Hws Hat. unfold subscribe.
  set (s1 := set_subscriptions (add_subscriber c topic (subscriptions s)) s).
  assert (attached s1 c l ws) as Hat1 by done.
  destruct Hat1 as (Hcl & ?). rewrite Hcl.
  by apply (attached_conn_send s1 c l ws).
Qed.

End Session.

Section SessionProperties.
Import WebSocketManager.

(** A subscribe request of a client with an active Connection over a
    healthy channel: the client becomes a subscriber of the topic and its
    Connection is sent the confirmation of the manager and then the
    acknowledgement of the endpoint, both with success; only the second is
    counted in [messages_sent]. *)
Theorem subscribe_request_is_confirmed_then_acknowledged (E : Env)
    (system_status : list Event → result string) (c : string) (l ws : nat)
    (m : message) (topic : string) (s : t) :
  healthy E ws →
  attached s c l ws →
  m !! "type" = Some "subscribe" →
  m !! "topic" = Some topic →
  topic ≠ "" →
  let r := Endpoint.handle_message E system_status c m s in
  r.1 = Return ()
  ∧ subscribers r.2 topic = subscribers s topic ∪ {[c]}
  ∧ trace r.2
    = trace s
      ++ [EvSend l (confirmation_message topic (utcnow E (trace s))) true true;
          EvInfo (Subscribed c topic);
          EvSend l (Endpoint.subscribed_message topic) true true]
  ∧ Stats.messages_sent (stats r.2) = S (Stats.messages_sent (stats s)).
Proof.
  intros Hws Hat Hty Htopic Hne r. subst r.
  unfold Endpoint.handle_message. rewrite Hty, Htopic.
  rewrite decide_True, decide_False by done. cbn [fst snd]. split; [done|].
  set (conf := confirmation_message topic (utcnow E (trace s))).
  pose proof (attached_subscribe E s c l ws topic Hws Hat) as HatA.
  assert (trace (subscribe E c topic s)
          = trace s ++ [EvSend l conf true true; EvInfo (Subscribed c topic)])
    as HtrA.
  { set (s1 := set_subscriptions (add_subscriber c topic (subscriptions s)) s).
    assert (attached s1 c l ws) as Hat1 by done.
    destruct (conn_send_healthy E s1 c l ws conf Hws Hat1) as [Hok1 _].
    pose proof (conn_send_trace E l conf s1) as Htr1.
    destruct Hat1 as (Hcl1 & _ & _ & Ha). rewrite Hok1, Ha in Htr1.
    unfold subscribe. fold s1. rewrite Hcl1.
    change (confirmation_message topic (utcnow E (trace s1))) with conf.
    simpl. rewrite Htr1. by rewrite <- app_assoc. }
  pose proof (subscribe_stats E c topic s) as HstA.
  pose proof (subscribe_subscriptions E c topic s) as HsubA.
  revert HatA HtrA HstA HsubA. generalize (subscribe E c topic s).
  intros sA HatA HtrA HstA HsubA.
  set (ack := Endpoint.subscribed_message topic).
  destruct (conn_send_healthy E sA c l ws ack Hws HatA) as [Hok2 _].
  pose proof (conn_send_trace E l ack sA) as Htr2.
  pose proof (conn_send_subscriptions E l ack sA) as Hsub2.
  pose proof (conn_send_stats E l ack sA) as Hst2.
  destruct HatA as (HclA & _ & _ & HaA).
  unfold send_personal_message. rewrite HclA, HaA.
  destruct (conn_send E l ack sA) as [ok s2]. cbn [fst snd] in *. subst ok.
  rewrite HaA in Htr2. unfold subscribers. simpl.
  rewrite Htr2, HtrA, <- app_assoc, Hst2, HstA, Hsub2, HsubA.
  rewrite add_subscriber_entry, decide_True by done. done.
Qed.

Lemma subscribe_request_is_confirmed_then_acknowledged_witness :
  Stats.messages_sent
    (stats (Endpoint.handle_message env_ok (λ _, Raise) "alice"
              {[ "type" := "subscribe"; "topic" := "news" ]} state_one).2)
  = S (Stats.messages_sent (stats state_one)).
Proof.
  apply (subscribe_request_is_confirmed_then_acknowledged env_ok (λ _, Raise)
           "alice" 0 7 {[ "type" := "subscribe"; "topic" := "news" ]} "news"
           state_one).
  - intros tr m. split; reflexivity.
  - repeat split; vm_compute; (reflexivity || lia).
  - vm_compute. reflexivity.
  - vm_compute. reflexivity.
  - discriminate.
Defined.

(** A subscribe request that is handled when the client has no Connection
    any more, as after a failed send, leaves a subscriber without
    Connection whose acknowledgement is put in the offline queue, and the
    [disconnect] with which the endpoint ends does not remove it. *)
Theorem subscribe_request_after_teardown_stays (E : Env)
    (system_status : list Event → result string) (c : string) (m : message)
    (topic : string) (s : t) :
  active_connections s !! c = None →
  m !! "type" = Some "subscribe" →
  m !! "topic" = Some topic →
  topic ≠ "" →
  let s' := disconnect c (Endpoint.handle_message E system_status c m s).2 in
  c ∈ subscribers s' topic
  ∧ active_connections s' !! c = None
  ∧ message_queue s' !! c
    = Some (default [] (message_queue s !! c)
            ++ [Endpoint.subscribed_message topic]).
Proof.
  intros Hc Hty Htopic Hne s'. subst s'.
  unfold Endpoint.handle_message. rewrite Hty, Htopic.
  rewrite decide_True, decide_False by done. simpl.
  assert (subscribe E c topic s
          = emit (EvInfo (Subscribed c topic))
                 (set_subscriptions
                    (add_subscriber c topic (subscriptions s)) s)) as ->.
  { unfold subscribe. simpl. by rewrite Hc. }
  unfold send_personal_message. simpl. rewrite Hc.
  rewrite disconnect_absent by done.
  unfold subscribers. simpl.
  rewrite add_subscriber_entry, decide_True by done.
  rewrite enqueue_lookup, decide_True by done. simpl.
  split; [set_solver|done].
Qed.

Lemma subscribe_request_after_teardown_stays_witness :
  "bob" ∈ subscribers
            (disconnect "bob"
               (Endpoint.handle_message env_ok (λ _, Raise) "bob"
                  {[ "type" := "subscribe"; "topic" := "news" ]} state_one).2)
            "news".
Proof.
  apply (subscribe_request_after_teardown_stays env_ok (λ _, Raise) "bob"
           {[ "type" := "subscribe"; "topic" := "news" ]} "news" state_one).
  - vm_compute. reflexivity.
  - vm_compute. reflexivity.
  - vm_compute. reflexivity.
  - discriminate.
Defined.

(** A text that is no JSON object ends the session: what the client sends
    after it is never handled. *)
Theorem malformed_text_ends_the_session (E : Env)
    (system_status : list Event → result string) (ws : nat)
    (client_id : string) (before after : list Endpoint.Received) (s : t) :
  Endpoint.websocket_endpoint E system_status ws client_id
    (before ++ Endpoint.Malformed :: after) s
  = Endpoint.websocket_endpoint E system_status ws client_id before s.
Proof.
  assert (∀ c s1,
    Endpoint.receive_loop E system_status c
      (before ++ Endpoint.Malformed :: after) s1
    = Endpoint.receive_loop E system_status c before s1) as Hloop.
  { intros c. induction before as [|[m|] before IH]; intros s1; simpl; try done.
    destruct (Endpoint.handle_message E system_status c m s1) as [[[]|] s2];
      [apply IH|done]. }
  unfold Endpoint.websocket_endpoint.
  destruct (connect E ws (Some client_id) s) as [[c|] s1]; [|done].
  by rewrite Hloop.
Qed.

(** [start_background_tasks] starts each loop once: a second call changes
    nothing, and after any number of calls on a new manager exactly the
    health check loop and the cleanup loop have been created, in this
    order. *)
Theorem background_tasks_start_once (b : Tasks) (n : nat) :
  start_background_tasks (start_background_tasks b) = start_background_tasks b
  ∧ Nat.iter (S n) start_background_tasks no_tasks
    = mkTasks (Some 0) (Some 1) [HealthCheckLoop; CleanupLoop].
Proof.
  assert (∀ b', start_background_tasks (start_background_tasks b')
                = start_background_tasks b') as Hidem.
  { intros [[h|] [c|] cr]; reflexivity. }
  split; [apply Hidem|].
  induction n as [|n IH]; [reflexivity|].
  change (Nat.iter (S (S n)) start_background_tasks no_tasks)
    with (start_background_tasks
            (Nat.iter (S n) start_background_tasks no_tasks)).
  rewrite IH. reflexivity.
Qed.

(** In every state that the manager reaches from its construction the
    Connection stored under a client id exists and carries that client id. *)
Theorem connection_carries_its_client_id (E : Env) (cs : list Call)
    (c : string) (l : nat) :
  active_connections (run E init cs) !! c = Some l →
  l < length (objs (run E init cs))
  ∧ ConnectionManager.client_id (objs (run E init cs) !!! l) = c.
Proof.
  revert c l.
  apply (preserved_run E
           (λ s, ∀ c l, active_connections s !! c = Some l →
                   l < length (objs s)
                   ∧ ConnectionManager.client_id (objs s !!! l) = c));
    try done.
  - intros l' m s Hs c l. rewrite conn_send_active_connections,
      conn_send_length. intros Hcl. destruct (Hs c l Hcl) as [Hl Hid].
    split; [done|]. rewrite conn_send_eq. simpl.
    destruct (decide (l' = l)) as [->|Hne].
    + rewrite list_lookup_total_insert_eq by done.
      by destruct (send_ok _ _ _ _).
    + by rewrite list_lookup_total_insert_ne.
  - intros l' s Hs c l. rewrite conn_ping_eq. simpl. rewrite length_insert.
    intros Hcl. destruct (Hs c l Hcl) as [Hl Hid]. split; [done|].
    destruct (decide (l' = l)) as [->|Hne].
    + rewrite list_lookup_total_insert_eq by done.
      by destruct (send_text _ _ _ _).
    + by rewrite list_lookup_total_insert_ne.
  - intros d s Hs c l.
    rewrite disconnect_active_connections, disconnect_objs.
    intros [_ Hcl]%lookup_delete_Some. by apply Hs.
  - intros ws cid now s Hs c l. simpl. rewrite length_app. simpl.
    intros [[<- <-]|[Hne Hcl]]%lookup_insert_Some.
    + split; [lia|].
      by rewrite lookup_total_app_r, Nat.sub_diag.
    + destruct (Hs c l Hcl) as [Hl Hid]. split; [lia|].
      by rewrite lookup_total_app_l.
Qed.

Lemma connection_carries_its_client_id_witness :
  0 < length (objs (run env_ok init [Connect 7 (Some "alice")]))
  ∧ ConnectionManager.client_id
      (objs (run env_ok init [Connect 7 (Some "alice")]) !!! 0) = "alice".
Proof.
  apply (connection_carries_its_client_id env_ok [Connect 7 (Some "alice")]
           "alice" 0).
  vm_compute. reflexivity.
Defined.

End SessionProperties.

Section DisconnectProperties.
Import WebSocketManager.

(** The [disconnect] of a connected client removes that client and nothing
    else: its entry leaves [connections], it leaves the subscribers of every
    topic while the other subscribers stay, the counter becomes the new
    number of entries, no topic is left with an empty set of subscribers,
    and the Connection objects, also the one of the client, are not
    touched. *)
Theorem disconnect_removes_only_that_client (c : string) (s : t)
    (topic : string) :
  is_Some (active_connections s !! c) →
  let s' := disconnect c s in
  active_connections s' = delete c (active_connections s)
  ∧ subscribers s' topic = subscribers s topic ∖ {[c]}
  ∧ Stats.active_connections (stats s') = size (active_connections s) - 1
  ∧ objs s' = objs s
  ∧ (no_empty_topic s → no_empty_topic s').
Proof.
  intros Hc s'. subst s'.
  split; [apply disconnect_active_connections|].
  split; [by apply disconnect_subscribers|].
  split; [|split; [apply disconnect_objs|]].
  - destruct Hc as [l Hl]. unfold disconnect. rewrite Hl. simpl.
    rewrite map_size_delete, Hl. lia.
  - intros Hne topic' X. rewrite disconnect_entry by done. unfold without.
    destruct (subscriptions s !! topic') as [Y|] eqn:HY; [|done].
    destruct (decide (c ∈ Y)).
    + destruct (decide (Y ∖ {[c]} = ∅)); [done|]. by intros [= <-].
    + intros [= <-]. by apply (Hne topic').
Qed.

Lemma disconnect_removes_only_that_client_witness :
  active_connections (disconnect "bob" state_two)
  = delete "bob" (active_connections state_two).
Proof.
  apply (disconnect_removes_only_that_client "bob" state_two "news").
  exists 1. vm_compute. reflexivity.
Defined.

End DisconnectProperties.
